(** * depinj: the resolution engine (injector.ts), the registry builder
      (builder.ts) and the registry validator (validate-registry.ts)

    The TypeScript sources are embedded shallowly.  JavaScript objects
    that are compared by reference carry the location they were allocated
    at; the mutable [Map]s and the symbol-keyed field of the context
    objects live in an explicit store that every operation threads.

    What the model takes for granted about the code it is given:
    - a factory uses the [ServiceGetter] it is handed through [getService]
      only, as the interface has it, and besides that reads its context,
      constructs objects and returns;
    - an [onScopeEnd] callback returns normally and leaves the store of
      the injectors alone; its calls are what the trace of the store
      records;
    - a context is an object (a primitive cannot carry the symbol field).

    [getService] recurses through the factories for as long as they ask,
    so it takes fuel; so does the resolver of the validator. *)

From Stdlib Require Import ZArith String List Lia.
From stdpp Require Import base option list gmap strings.

Local Open Scope string_scope.
Local Open Scope list_scope.

(** ** Values and factories *)

(** Heap locations: object identity ([===] on objects compares these). *)
Abbreviation loc := nat (only parsing).

(** The values factories see, return and pass around.  [VProxy] is the
    object made by [createDynamicContext]: every property read on it gives
    another such proxy. *)
Inductive Value :=
| VUndefined
| VNumber (n : Z)
| VObject (l : loc)
| VProxy.

(** scope-type.ts: [enum ScopeType]. *)
Inductive ScopeType := OnDemand | SingleInstance | Transient.

(** The numeric value of an enum member. *)
Definition ordinal (s : ScopeType) : Z :=
  match s with
  | OnDemand => 1
  | SingleInstance => 2
  | Transient => 3
  end.

(** The reverse mapping [ScopeType[value]] of a numeric enum. *)
Definition scopeName (s : ScopeType) : string :=
  match s with
  | OnDemand => "OnDemand"
  | SingleInstance => "SingleInstance"
  | Transient => "Transient"
  end.

(** [a < b] on enum members. *)
Definition scopeLt (a b : ScopeType) : bool := (ordinal a <? ordinal b)%Z.

(** The body of a factory [(context, serviceGetter) => any], once the
    context is given: what it does with the [ServiceGetter] it is handed.
    The interface exposes [getService] only, so a body is a tree of
    [getService] requests, each continued with the resolved value, of
    object constructions ([new T(...args)] or an object literal) and a
    final result. *)
Inductive Factory :=
| Return (v : Value)
| Construct (args : list Value) (k : Value -> Factory)
| GetService (key : string) (k : Value -> Factory).

(** builder.ts: [FunctionConfig], a function object: its identity and its
    code. *)
Record FunctionConfig := mkFunction {
  functionRef : loc;
  call : Value -> Factory
}.

(** builder.ts: [ServiceConfiguration], the descriptor object stored in
    the registry, with the location it was allocated at.  [onScopeEnd] is
    a callback whose calls are recorded in the trace of the store. *)
Record ServiceConfiguration := mkConfiguration {
  configRef : loc;
  scope : ScopeType;
  factory : FunctionConfig;
  onScopeEnd : loc
}.

(** [a === b] on descriptor objects and on function objects. *)
Definition sameConfiguration (a b : ServiceConfiguration) : bool :=
  Nat.eqb (configRef a) (configRef b).

Definition sameFunction (a b : FunctionConfig) : bool :=
  Nat.eqb (functionRef a) (functionRef b).

(** ** JavaScript [Map] and [Set] with string keys

    A [Map] iterates in insertion order and [set] on a key already there
    replaces the value where it stands. *)
Abbreviation JsMap V := (list (string * V)) (only parsing).

Section JsMap.
Context {V : Type}.

Fixpoint map_get (key : string) (m : JsMap V) : option V :=
  match m with
  | [] => None
  | (k, v) :: m' => if String.eqb k key then Some v else map_get key m'
  end.

Fixpoint map_set (key : string) (v : V) (m : JsMap V) : JsMap V :=
  match m with
  | [] => [(key, v)]
  | (k, x) :: m' =>
      if String.eqb k key then (k, v) :: m' else (k, x) :: map_set key v m'
  end.

Definition map_entries (m : JsMap V) : list (string * V) := m.
Definition map_keys (m : JsMap V) : list string := map fst m.
Definition map_values (m : JsMap V) : list V := map snd m.
End JsMap.

Abbreviation JsSet := (list string) (only parsing).

Definition set_has (key : string) (s : JsSet) : bool :=
  existsb (String.eqb key) s.

Definition set_add (key : string) (s : JsSet) : JsSet :=
  if set_has key s then s else s ++ [key].

(** builder.ts: [type Registry = Map<string, ServiceConfiguration>]. *)
Abbreviation Registry := (JsMap ServiceConfiguration) (only parsing).

(** ** Outcomes of calls

    A call returns, throws, or has not finished within the fuel given
    (the source has no cycle guard: a circular registration recurses for
    ever).  The state reached is kept when a call throws: nothing is
    rolled back. *)
Inductive Exception :=
| Error (message : string)
| TypeError.

Inductive Outcome (S A : Type) :=
| Returns (a : A) (s : S)
| Throws (e : Exception) (s : S)
| OutOfFuel.

Arguments Returns {S A} a s.
Arguments Throws {S A} e s.
Arguments OutOfFuel {S A}.

Definition bind {S A B} (m : Outcome S A) (f : A -> S -> Outcome S B)
  : Outcome S B :=
  match m with
  | Returns a s => f a s
  | Throws e s => Throws e s
  | OutOfFuel => OutOfFuel
  end.

Notation "x <- m ;; f" := (bind m (fun x => f))
  (at level 100, m at level 99, right associativity, only parsing).

(** injector.ts: [interface ServiceGetter], over a state of type [S]. *)
Definition ServiceGetter (S : Type) := string -> S -> Outcome S Value.

(** Running a factory body against a service getter. *)
Section RunFactory.
Context {S : Type}.
Variable construct : list Value -> S -> Value * S.
Variable serviceGetter : ServiceGetter S.

Fixpoint runFactory (f : Factory) (s : S) : Outcome S Value :=
  match f with
  | Return v => Returns v s
  | Construct args k =>
      let '(o, s') := construct args s in runFactory (k o) s'
  | GetService key k =>
      match serviceGetter key s with
      | Returns v s' => runFactory (k v) s'
      | Throws e s' => Throws e s'
      | OutOfFuel => OutOfFuel
      end
  end.
End RunFactory.

(** ** builder.ts *)

Record Builder := mkBuilder { builderRegistry : Registry }.

(** [new Builder()]. *)
Definition newBuilder : Builder := mkBuilder [].

(** [Builder.add] with its keys already an array ([key] or [[key]]).  The
    descriptor object is allocated at [ref]; every key is set to that one
    object in a copy of the registry. *)
Definition add (ref : loc) (keys : list string) (functionConfig : FunctionConfig)
    (scope : ScopeType) (onScopeEnd : loc) (this : Builder) : Builder :=
  let serviceConfiguration := mkConfiguration ref scope functionConfig onScopeEnd in
  mkBuilder
    (fold_left (fun registry currKey => map_set currKey serviceConfiguration registry)
       keys (builderRegistry this)).

(** The factory [addType] builds: resolve every dependency in order, then
    construct the type from the resolved services. *)
Fixpoint resolveAll (dependencies : list string) (services : list Value)
    (k : list Value -> Factory) : Factory :=
  match dependencies with
  | [] => k services
  | t :: rest => GetService t (fun v => resolveAll rest (services ++ [v]) k)
  end.

Definition addType (ref fref : loc) (keys : list string)
    (dependencies : list string) (scope : ScopeType) (onScopeEnd : loc)
    (this : Builder) : Builder :=
  let factory :=
    mkFunction fref
      (fun _ => resolveAll dependencies [] (fun services => Construct services Return)) in
  add ref keys factory scope onScopeEnd this.

(** [Builder.build]: a copy of the map. *)
Definition build (this : Builder) : Registry := builderRegistry this.

(** ** injector.ts *)

Record ServiceHandle := mkHandle {
  instance : Value;
  handleOnScopeEnd : loc
}.

(** [DependencyData].  [scopedServices] is a reference to a [Map] of the
    store; the array [onDemandServices] is only ever reached through the
    field that holds this record, so it is kept in place. *)
Record DependencyData := mkDependencyData {
  scopedServices : loc;
  onDemandServices : list ServiceHandle
}.

(** What the outside can observe of a run: the calls made to factories
    and to [onScopeEnd] callbacks, in order. *)
Inductive Event :=
| FactoryCalled (function : loc) (context : Value)
| ScopeEndCalled (callback : loc) (inst : Value) (context : Value).

(** The store: the objects constructed so far (an object's location is
    its index), the [Map] objects holding service handles (likewise), for
    each context object the value of its
    [dependencyInjectionContextSymbol] field when it has one, and the
    trace of the calls made so far, which the source does not keep. *)
Record Store := mkStore {
  objects : list (list Value);
  maps : list (JsMap ServiceHandle);
  slots : gmap loc DependencyData;
  trace : list Event
}.

(** A reference to a [Map] always points to one; the empty map stands in
    for a location that was never allocated. *)
Definition readMap (l : loc) (st : Store) : JsMap ServiceHandle :=
  default [] (maps st !! l).

Definition writeMap (l : loc) (m : JsMap ServiceHandle) (st : Store) : Store :=
  mkStore (objects st) (<[l := m]> (maps st)) (slots st) (trace st).

(** [new Map(entries)]. *)
Definition newMap (m : JsMap ServiceHandle) (st : Store) : loc * Store :=
  (length (maps st), mkStore (objects st) (maps st ++ [m]) (slots st) (trace st)).

Definition construct (args : list Value) (st : Store) : Value * Store :=
  (VObject (length (objects st)),
   mkStore (objects st ++ [args]) (maps st) (slots st) (trace st)).

Definition setSlot (context : loc) (d : DependencyData) (st : Store) : Store :=
  mkStore (objects st) (maps st) (<[context := d]> (slots st)) (trace st).

Definition record (e : Event) (st : Store) : Store :=
  mkStore (objects st) (maps st) (slots st) (trace st ++ [e]).

(** [class Injector]: its four readonly fields. *)
Record Injector := mkInjector {
  isMainScope : bool;
  injectorScope : loc;
  registry : Registry;
  singleInstanceServices : loc
}.

(** [Injector.createDependencyData]. *)
Definition createDependencyData (st : Store) : DependencyData * Store :=
  let '(scopedServices, st') := newMap [] st in
  (mkDependencyData scopedServices [], st').

(** The constructor.  [singleInstanceServices = None] is the default
    argument [new Map()]. *)
Definition newInjector (scope : loc) (registry : Registry)
    (singleInstanceServices : option loc) (isMainScope : bool) (st : Store)
  : Injector * Store :=
  let '(services, st1) :=
    match singleInstanceServices with
    | Some l => (l, st)
    | None => newMap [] st
    end in
  let st2 :=
    match slots st1 !! scope with
    | Some _ => st1
    | None => let '(d, st') := createDependencyData st1 in setSlot scope d st'
    end in
  (mkInjector isMainScope scope registry services, st2).

(** The loop of [getOrCreate] over the keys. *)
Fixpoint findService (keys : list string) (services : JsMap ServiceHandle)
  : option ServiceHandle :=
  match keys with
  | [] => None
  | currKey :: rest =>
      match map_get currKey services with
      | Some service => Some service
      | None => findService rest services
      end
  end.

(** [Injector.getOrCreate].  [keys[0]] of an empty array is [undefined];
    [getService] never passes one (lemma [aliasKeys_head]), and the model
    stores nothing then. *)
Definition getOrCreate (keys : list string)
    (createInstance : Store -> Outcome Store ServiceHandle) (services : loc)
    (st : Store) : Outcome Store ServiceHandle :=
  match findService keys (readMap services st) with
  | Some service => Returns service st
  | None =>
      service <- createInstance st ;;
      fun st' =>
        match keys with
        | [] => Returns service st'
        | key0 :: _ =>
            Returns service
              (writeMap services (map_set key0 service (readMap services st')) st')
        end
  end.

(** The keys of the registry whose descriptor is the given object. *)
Definition aliasKeys (registry : Registry) (currRegistration : ServiceConfiguration)
  : list string :=
  map fst
    (filter (fun entry => sameConfiguration (snd entry) currRegistration)
       (map_entries registry)).

Definition unregisteredMessage (key : string) : string :=
  "There's no type registered to the key " +:+ key +:+ ".".

(** The closure [createInstance] of [getService]. *)
Definition createInstance (serviceGetter : ServiceGetter Store) (this : Injector)
    (currRegistration : ServiceConfiguration) (st : Store)
  : Outcome Store ServiceHandle :=
  let context := VObject (injectorScope this) in
  inst <- runFactory construct serviceGetter
            (call (factory currRegistration) context)
            (record (FactoryCalled (functionRef (factory currRegistration)) context) st) ;;
  fun st' => Returns (mkHandle inst (onScopeEnd currRegistration)) st'.

(** [Injector.getService]. *)
Fixpoint getService (fuel : nat) (this : Injector) (key : string) (st : Store)
  : Outcome Store Value :=
  match fuel with
  | 0 => OutOfFuel
  | S fuel' =>
      match map_get key (registry this) with
      | None => Throws (Error (unregisteredMessage key)) st
      | Some currRegistration =>
          let create := createInstance (getService fuel' this) this currRegistration in
          let keys := aliasKeys (registry this) currRegistration in
          match scope currRegistration with
          | SingleInstance =>
              service <- getOrCreate keys create (singleInstanceServices this) st ;;
              fun st' => Returns (instance service) st'
          | Transient =>
              match slots st !! injectorScope this with
              | None => Throws TypeError st
              | Some data =>
                  service <- getOrCreate keys create (scopedServices data) st ;;
                  fun st' => Returns (instance service) st'
              end
          | OnDemand =>
              onDemandService <- create st ;;
              fun st' =>
                match slots st' !! injectorScope this with
                | None => Throws TypeError st'
                | Some data =>
                    Returns (instance onDemandService)
                      (setSlot (injectorScope this)
                         (mkDependencyData (scopedServices data)
                            (onDemandServices data ++ [onDemandService]))
                         st')
                end
          end
      end
  end.

(** [Injector.createScope]. *)
Definition createScope (this : Injector) (newScope : loc) (st : Store)
  : Injector * Store :=
  let '(copy, st') := newMap (readMap (singleInstanceServices this) st) st in
  newInjector newScope (registry this) (Some copy) false st'.

(** The call of one handle's [onScopeEnd]. *)
Definition scopeEndEvent (context : loc) (h : ServiceHandle) : Event :=
  ScopeEndCalled (handleOnScopeEnd h) (instance h) (VObject context).

(** [Injector.endScope]: the array [servicesToDispose] it builds, then
    the calls and the reset.  A context that lost its field makes the
    first read of [scopedServices.onDemandServices] throw. *)
Definition servicesToDispose (this : Injector) (scopedServices' : DependencyData)
    (st : Store) : list ServiceHandle :=
  (onDemandServices scopedServices'
     ++ map_values (readMap (scopedServices scopedServices') st))
    ++ (if isMainScope this
        then map_values (readMap (singleInstanceServices this) st)
        else []).

Definition endScope (this : Injector) (st : Store) : Outcome Store unit :=
  match slots st !! injectorScope this with
  | None => Throws TypeError st
  | Some scopedServices' =>
      let st1 :=
        fold_left (fun s h => record (scopeEndEvent (injectorScope this) h) s)
          (servicesToDispose this scopedServices' st) st in
      let '(d, st2) := createDependencyData st1 in
      Returns tt (setSlot (injectorScope this) d st2)
  end.

(** ** validate-registry.ts *)

(** What one pass of [validateEntry] mutates: the array [trackedErrors],
    the set [visitedServices], and the number of objects the factories run
    by the pass have constructed (nothing reads those objects). *)
Record PassState := mkPass {
  trackedErrors : list string;
  visitedServices : JsSet;
  constructed : nat
}.

Definition passConstruct (args : list Value) (s : PassState) : Value * PassState :=
  (VObject (constructed s),
   mkPass (trackedErrors s) (visitedServices s) (S (constructed s))).

Definition pushError (message : string) (s : PassState) : PassState :=
  mkPass (trackedErrors s ++ [message]) (visitedServices s) (constructed s).

Definition addVisited (s : PassState) (currKey : string) : PassState :=
  mkPass (trackedErrors s) (set_add currKey (visitedServices s)) (constructed s).

(** [createDynamicContext]. *)
Definition createDynamicContext : Value := VProxy.

Definition missingMessage (key dependencyKey : string) : string :=
  "Root Service with key " +:+ key +:+ " depends on a service keyed "
    +:+ dependencyKey +:+ " which does not exist.".

Definition circularMessage (key dependencyKey : string) : string :=
  "Root Service with key " +:+ key +:+ " has a circular dependency with "
    +:+ dependencyKey +:+ ".".

Definition scopeMessage (key parentScopeName dependencyKey childScopeName : string)
  : string :=
  "Root Service with key " +:+ key +:+ " has a scope of " +:+ parentScopeName
    +:+ " which is less embracing than " +:+ dependencyKey +:+ " scope of "
    +:+ childScopeName +:+ ".".

(** The keys the validator takes for the same service: those whose
    descriptor holds the same factory function. *)
Definition allEquivalentServices (registry : Registry)
    (serviceRegistry : ServiceConfiguration) : list string :=
  map fst
    (filter (fun entry => sameFunction (factory (snd entry)) (factory serviceRegistry))
       (map_entries registry)).

(** [mockRegistry.getService] of [validateEntry]; [key] and [parentScope]
    are those of the entry the pass is rooted at. *)
Fixpoint mockRegistry (fuel : nat) (key : string) (parentScope : ScopeType)
    (registry : Registry) (dependencyKey : string) (s : PassState)
  : Outcome PassState Value :=
  match fuel with
  | 0 => OutOfFuel
  | S fuel' =>
      match map_get dependencyKey registry with
      | None => Returns VUndefined (pushError (missingMessage key dependencyKey) s)
      | Some serviceRegistry =>
          if set_has dependencyKey (visitedServices s) then
            Returns VUndefined (pushError (circularMessage key dependencyKey) s)
          else if scopeLt parentScope (scope serviceRegistry) then
            let parentScopeName := scopeName parentScope in
            let childScopeName := scopeName (scope serviceRegistry) in
            Returns VUndefined
              (pushError
                 (scopeMessage key parentScopeName dependencyKey childScopeName) s)
          else
            let s' :=
              fold_left addVisited (allEquivalentServices registry serviceRegistry) s in
            _ <- runFactory passConstruct
                   (mockRegistry fuel' key parentScope registry)
                   (call (factory serviceRegistry) createDynamicContext) s' ;;
            fun s'' => Returns VUndefined s''
      end
  end.

(** [validateEntry]; [None] when the pass has not finished within the
    fuel. *)
Definition validateEntry (fuel : nat) (entry : string * ServiceConfiguration)
    (registry : Registry) : option (list string) :=
  let '(key, value) := entry in
  let parentScope := scope value in
  match runFactory passConstruct (mockRegistry fuel key parentScope registry)
          (call (factory value) createDynamicContext) (mkPass [] [] 0) with
  | Returns _ s => Some (trackedErrors s)
  | Throws _ _ => None
  | OutOfFuel => None
  end.

(** [validateRegistry]: the [reduce] over the entries. *)
Definition validateRegistry (fuel : nat) (registry : Registry) : option (list string) :=
  fold_left
    (fun aggregatedErrors t =>
       match aggregatedErrors, validateEntry fuel t registry with
       | Some aggregated, Some errors => Some (aggregated ++ errors)
       | _, _ => None
       end)
    (map_entries registry) (Some []).

(** ** Well-formed stores and what a resolution may touch *)

(** The state an outcome ends in, when the call finished. *)
Definition finalState {S A} (o : Outcome S A) : option S :=
  match o with
  | Returns _ s => Some s
  | Throws _ s => Some s
  | OutOfFuel => None
  end.

(** Every scoped cache a context points to is a [Map] of the store. *)
Definition wfStore (st : Store) : Prop :=
  forall c d, slots st !! c = Some d -> scopedServices d < length (maps st).

(** [this] has been constructed in [st]: its SingleInstance cache is a
    [Map] of the store, its context carries the symbol field, and its
    cache is not the scoped cache of any context. *)
Definition wfInjector (this : Injector) (st : Store) : Prop :=
  singleInstanceServices this < length (maps st)
  /\ is_Some (slots st !! injectorScope this)
  /\ forall c d, slots st !! c = Some d -> scopedServices d <> singleInstanceServices this.

(** What a call of [this.getService] may change: objects are only added,
    events only appended, no [Map] is created, and the only [Map]s written
    are the SingleInstance cache of [this] and the scoped cache of its
    context, whose on-demand array only grows. *)
Record evolves (this : Injector) (st st' : Store) : Prop := mkEvolves {
  ev_objects : exists more, objects st' = objects st ++ more;
  ev_trace : exists more, trace st' = trace st ++ more;
  ev_length : length (maps st') = length (maps st);
  ev_maps : forall l,
      l <> singleInstanceServices this ->
      (forall d, slots st !! injectorScope this = Some d -> l <> scopedServices d) ->
      maps st' !! l = maps st !! l;
  ev_slots : forall c, c <> injectorScope this -> slots st' !! c = slots st !! c;
  ev_slot :
    match slots st !! injectorScope this with
    | None => slots st' !! injectorScope this = None
    | Some d =>
        exists more,
          slots st' !! injectorScope this
          = Some (mkDependencyData (scopedServices d) (onDemandServices d ++ more))
    end
}.

(** A value that is not a reference to an object constructed later than
    [st]. *)
Definition existsIn (st : Store) (v : Value) : Prop :=
  match v with
  | VObject l => l < length (objects st)
  | _ => True
  end.

(** A factory body that builds its result: whatever it resolves, it ends
    by constructing an object and returning it. *)
Inductive constructs : Factory -> Prop :=
| constructs_new args : constructs (Construct args Return)
| constructs_get key k : (forall v, constructs (k v)) -> constructs (GetService key k)
| constructs_then args k : (forall v, constructs (k v)) -> constructs (Construct args k).

(** The [Map] the lifetime of a descriptor makes [getService] look in. *)
Definition cacheFor (this : Injector) (d : ServiceConfiguration) (st : Store)
  : option loc :=
  match scope d with
  | OnDemand => None
  | SingleInstance => Some (singleInstanceServices this)
  | Transient => scopedServices <$> slots st !! injectorScope this
  end.

(** No handle for the descriptor in the cache its lifetime uses. *)
Definition uncached (this : Injector) (d : ServiceConfiguration) (st : Store) : Prop :=
  match scope d with
  | OnDemand => True
  | SingleInstance =>
      findService (aliasKeys (registry this) d)
        (readMap (singleInstanceServices this) st) = None
  | Transient =>
      forall data,
        slots st !! injectorScope this = Some data ->
        findService (aliasKeys (registry this) d)
          (readMap (scopedServices data) st) = None
  end.

(** ** Registries and stores the code is run on *)

(** A store in which [n] objects exist already (the context objects, the
    descriptors, the functions), before any injector is made. *)
Definition initialStore (n : nat) : Store := mkStore (repeat [] n) [] ∅ [].

(** A registry with the three lifetimes.  Contexts are the objects 0 and
    1; each [addType] below names the locations of its descriptor, its
    factory and its [onScopeEnd] callback:
    [new Builder()
       .addType('Option', Option, [], ScopeType.OnDemand, ...)
       .addType(['Cache', 'Store'], Cache, ['Option'], ScopeType.SingleInstance, ...)
       .addType('Request', Request, ['Cache', 'Option'], ScopeType.Transient, ...)
       .build()]. *)
Definition demoRegistry : Registry :=
  build
    (addType 8 9 ["Request"] ["Cache"; "Option"] Transient 10
       (addType 5 6 ["Cache"; "Store"] ["Option"] SingleInstance 7
          (addType 2 3 ["Option"] [] OnDemand 4 newBuilder))).

(** [new Injector(context0, demoRegistry)]. *)
Definition demoRoot : Injector * Store :=
  newInjector 0 demoRegistry None true (initialStore 11).

(** The descriptors of 'Cache' (and 'Store') and of 'Request' in it. *)
Definition cacheService : ServiceConfiguration :=
  mkConfiguration 5 SingleInstance
    (mkFunction 6
       (fun _ => resolveAll ["Option"] [] (fun services => Construct services Return)))
    7.

Definition requestService : ServiceConfiguration :=
  mkConfiguration 8 Transient
    (mkFunction 9
       (fun _ =>
          resolveAll ["Cache"; "Option"] [] (fun services => Construct services Return)))
    10.

(** The store after [demoRoot.getService('Request')], which returns the
    object 14: 'Cache' is the object 12, the two instances of 'Option'
    are 11 and 13. *)
Definition demoResolved : Store :=
  match getService 4 demoRoot.1 "Request" demoRoot.2 with
  | Returns _ st => st
  | _ => demoRoot.2
  end.

(** The field of the context 0 in that store. *)
Definition demoData : DependencyData :=
  mkDependencyData 1 [mkHandle (VObject 11) 4; mkHandle (VObject 13) 4].

(** [demoRoot.createScope(context1)] in that store. *)
Definition demoChild : Injector * Store := createScope demoRoot.1 1 demoResolved.

(** [demoRoot.createScope(context0)]: a child over the root's own
    context object, made before anything is resolved. *)
Definition sameContextChild : Injector * Store := createScope demoRoot.1 0 demoRoot.2.

(** validate-registry.unit.ts, 'detects a direct circular dependency'. *)
Definition circularRegistry : Registry :=
  build (addType 0 1 ["CircularService"] ["CircularService"] OnDemand 2 newBuilder).

(** The descriptor of 'CircularService' in it. *)
Definition circularService : ServiceConfiguration :=
  mkConfiguration 0 OnDemand
    (mkFunction 1
       (fun _ =>
          resolveAll ["CircularService"] [] (fun services => Construct services Return)))
    2.



(** One function registered twice, by two calls of [add], and a service
    that depends on both registrations:
    [const make = () => ({});
     new Builder()
       .add('A', make, ScopeType.SingleInstance, end)
       .add('B', make, ScopeType.SingleInstance, end)
       .addType('R', R, ['A', 'B'], ScopeType.SingleInstance, ...)
       .build()]. *)
Definition makeObject : FunctionConfig := mkFunction 3 (fun _ => Construct [] Return).

Definition twiceRegistry : Registry :=
  build
    (addType 6 7 ["R"] ["A"; "B"] SingleInstance 8
       (add 5 ["B"] makeObject SingleInstance 4
          (add 2 ["A"] makeObject SingleInstance 4 newBuilder))).

(** [new Injector(context0, twiceRegistry)]. *)
Definition twiceRoot : Injector * Store :=
  newInjector 0 twiceRegistry None true (initialStore 9).

(** ** What the further properties are stated with *)

(** Two contexts never hold the same scoped cache. *)
Definition distinctCaches (st : Store) : Prop :=
  forall c c' d d',
    slots st !! c = Some d -> slots st !! c' = Some d' ->
    scopedServices d = scopedServices d' -> c = c'.

(** A handle cached in [st] is cached, under the same key of the same
    [Map], in [st']. *)
Definition keepsHandles (st st' : Store) : Prop :=
  forall l k h,
    map_get k (readMap l st) = Some h -> map_get k (readMap l st') = Some h.

(** The store a call leaves. *)
Definition stateAfter {A} (o : Outcome Store A) (st : Store) : Store :=
  match o with
  | Returns _ s => s
  | Throws _ s => s
  | OutOfFuel => st
  end.

(** The stores reached from [st] by calls of [getService], on any
    injectors, each of them made once the one before has returned or
    thrown. *)
Inductive resolvedFrom (st : Store) : Store -> Prop :=
| resolvedFrom_refl : resolvedFrom st st
| resolvedFrom_step st1 st2 fuel this key :
    resolvedFrom st st1 ->
    finalState (getService fuel this key st1) = Some st2 ->
    resolvedFrom st st2.

(** The number of keys of the registry that a pass has not visited. *)
Fixpoint countUnvisited (keys : list string) (visited : JsSet) : nat :=
  match keys with
  | [] => 0
  | k :: rest =>
      (if set_has k visited then 0 else 1) + countUnvisited rest visited
  end.

(** From [s] to [s'] a pass has only appended errors and added visited
    keys. *)
Definition passGrows (s s' : PassState) : Prop :=
  (exists more, trackedErrors s' = trackedErrors s ++ more)
  /\ forall k, set_has k (visitedServices s) = true ->
               set_has k (visitedServices s') = true.

(** A line the pass rooted at [key] may push: one of the three messages,
    about a dependency key that is unregistered for the first, registered
    for the second, registered with a lifetime of greater ordinal than the
    root's for the third. *)
Definition diagnosticOf (key : string) (parentScope : ScopeType)
    (registry : Registry) (line : string) : Prop :=
  exists dependencyKey,
    (map_get dependencyKey registry = None
     /\ line = missingMessage key dependencyKey)
    \/ (is_Some (map_get dependencyKey registry)
        /\ line = circularMessage key dependencyKey)
    \/ (exists d,
           map_get dependencyKey registry = Some d
           /\ (ordinal parentScope < ordinal (scope d))%Z
           /\ line = scopeMessage key (scopeName parentScope) dependencyKey
                       (scopeName (scope d))).

(** The builder of [demoRegistry] after its first registration, and the
    descriptor of 'Option'. *)
Definition optionBuilder : Builder := addType 2 3 ["Option"] [] OnDemand 4 newBuilder.

Definition optionService : ServiceConfiguration :=
  mkConfiguration 2 OnDemand
    (mkFunction 3 (fun _ => resolveAll [] [] (fun services => Construct services Return)))
    4.

(** The stores after [demoRoot.getService('Option')], once and twice. *)
Definition demoOption1 : Store :=
  stateAfter (getService 2 demoRoot.1 "Option" demoRoot.2) demoRoot.2.

Definition demoOption2 : Store :=
  stateAfter (getService 2 demoRoot.1 "Option" demoOption1) demoOption1.

(** The store after the child of [demoChild] has resolved 'Request', and
    after the root has then ended its scope. *)
Definition demoChildResolved : Store :=
  stateAfter (getService 4 demoChild.1 "Request" demoChild.2) demoChild.2.

Definition demoRootEnded : Store :=
  stateAfter (endScope demoRoot.1 demoChildResolved) demoChildResolved.

(** The store after the root has resolved 'Request' with the child of
    [sameContextChild] made, and after that child has then ended its
    scope. *)
Definition sharedResolved : Store :=
  stateAfter (getService 4 demoRoot.1 "Request" sameContextChild.2) sameContextChild.2.

Definition sharedEnded : Store :=
  stateAfter (endScope sameContextChild.1 sharedResolved) sharedResolved.

(** The store after [demoRoot.getService('Request')] and then
    [demoRoot.getService('Option')]. *)
Definition demoResolvedOption : Store :=
  stateAfter (getService 2 demoRoot.1 "Option" demoResolved) demoResolved.

(** validate-registry.unit.ts, 'detects if there are dependencies with
    missing services', its descriptor of 'CommonService', and
    [new Injector(context0, missingRegistry)]. *)
Definition missingRegistry : Registry :=
  build
    (addType 11 12 ["CommonService"] ["UnregisteredService"] OnDemand 13
       (addType 8 9 ["YetAnotherService"] ["CommonService"] OnDemand 10
          (addType 5 6 ["AnotherService"] ["CommonService"] OnDemand 7
             (addType 2 3 ["SomeService"] ["AnotherService"] OnDemand 4 newBuilder)))).

Definition commonService : ServiceConfiguration :=
  mkConfiguration 11 OnDemand
    (mkFunction 12
       (fun _ =>
          resolveAll ["UnregisteredService"] []
            (fun services => Construct services Return)))
    13.

Definition missingRoot : Injector * Store :=
  newInjector 0 missingRegistry None true (initialStore 14).

(** The descriptor of 'A' in [twiceRegistry]. *)
Definition twiceA : ServiceConfiguration :=
  mkConfiguration 2 SingleInstance makeObject 4.

(** * Properties *)

(** ** [Map] *)

Section JsMapFacts.
Context {V : Type}.
Implicit Types (m : JsMap V) (k : string) (v : V).

Lemma map_get_set_eq k v m : map_get k (map_set k v m) = Some v.
Proof.
  induction m as [|[k' x] m IH]; simpl.
  - by rewrite String.eqb_refl.
  - destruct (String.eqb k' k) eqn:E; simpl; rewrite E; auto.
Qed.

Lemma map_get_set_ne k k' v m :
  k <> k' -> map_get k' (map_set k v m) = map_get k' m.
Proof.
  intros Hne. induction m as [|[k0 x] m IH]; simpl.
  - destruct (String.eqb k k') eqn:E; auto.
    apply String.eqb_eq in E. contradiction.
  - destruct (String.eqb k0 k) eqn:E; simpl.
    + apply String.eqb_eq in E. subst k0.
      destruct (String.eqb k k') eqn:E'; auto.
      apply String.eqb_eq in E'. contradiction.
    + destruct (String.eqb k0 k'); auto.
Qed.

Lemma map_get_In k v m : map_get k m = Some v -> In (k, v) m.
Proof.
  induction m as [|[k0 x] m IH]; simpl; [discriminate|].
  destruct (String.eqb k0 k) eqn:E.
  - apply String.eqb_eq in E. intros [= ->]. subst. by left.
  - intros H. right. auto.
Qed.
End JsMapFacts.

(** ** The store *)

Lemma readMap_writeMap_eq l m st :
  l < length (maps st) -> readMap l (writeMap l m st) = m.
Proof.
  intros Hl. unfold readMap, writeMap. simpl.
  by rewrite list_lookup_insert_eq.
Qed.

Lemma readMap_ext (l : loc) st st' :
  maps st' !! l = maps st !! l -> readMap l st' = readMap l st.
Proof. intros H. unfold readMap. by rewrite H. Qed.

(** ** [evolves] is a preorder that every step of a resolution respects *)

Lemma slot_same d :
  exists more,
    Some d = Some (mkDependencyData (scopedServices d) (onDemandServices d ++ more)).
Proof. exists []. rewrite app_nil_r. by destruct d. Qed.

Lemma evolves_refl this st : evolves this st st.
Proof.
  split; auto.
  - exists []. by rewrite app_nil_r.
  - exists []. by rewrite app_nil_r.
  - destruct (slots st !! injectorScope this) as [d|] eqn:E; auto.
    apply slot_same.
Qed.

Lemma evolves_trans this st1 st2 st3 :
  evolves this st1 st2 -> evolves this st2 st3 -> evolves this st1 st3.
Proof.
  intros [[o1 Ho1] [t1 Ht1] Hl1 Hm1 Hs1 Hd1] [[o2 Ho2] [t2 Ht2] Hl2 Hm2 Hs2 Hd2].
  split.
  - exists (o1 ++ o2). by rewrite Ho2, Ho1, app_assoc.
  - exists (t1 ++ t2). by rewrite Ht2, Ht1, app_assoc.
  - congruence.
  - intros l Hsi Hsc. rewrite Hm2, Hm1; auto.
    intros d Hd. destruct (slots st1 !! injectorScope this) as [d1|] eqn:E.
    + destruct Hd1 as [more Hd1]. rewrite Hd1 in Hd. injection Hd as <-. simpl.
      by apply Hsc.
    + congruence.
  - intros c Hc. rewrite Hs2, Hs1; auto.
  - destruct (slots st1 !! injectorScope this) as [d1|] eqn:E.
    + destruct Hd1 as [more1 Hd1]. rewrite Hd1 in Hd2.
      destruct Hd2 as [more2 Hd2]. simpl in Hd2.
      exists (more1 ++ more2). by rewrite Hd2, app_assoc.
    + by rewrite Hd1 in Hd2.
Qed.


Lemma evolves_record this e st : evolves this st (record e st).
Proof.
  split; simpl; auto.
  - exists []. by rewrite app_nil_r.
  - by exists [e].
  - destruct (slots st !! injectorScope this) as [d|] eqn:E; auto.
    apply slot_same.
Qed.

Lemma evolves_construct this args st : evolves this st (construct args st).2.
Proof.
  split; simpl; auto.
  - by exists [args].
  - exists []. by rewrite app_nil_r.
  - destruct (slots st !! injectorScope this) as [d|] eqn:E; auto.
    apply slot_same.
Qed.

Lemma evolves_writeMap this l m st :
  l = singleInstanceServices this
  \/ (exists d, slots st !! injectorScope this = Some d /\ l = scopedServices d) ->
  evolves this st (writeMap l m st).
Proof.
  intros Hl. split; simpl; auto.
  - exists []. by rewrite app_nil_r.
  - exists []. by rewrite app_nil_r.
  - by rewrite length_insert.
  - intros l' Hsi Hsc. apply list_lookup_insert_ne.
    destruct Hl as [->|(d & Hd & ->)]; [congruence|].
    specialize (Hsc d Hd). congruence.
  - destruct (slots st !! injectorScope this) as [d|] eqn:E; auto.
    apply slot_same.
Qed.

Lemma evolves_push this d h st :
  slots st !! injectorScope this = Some d ->
  evolves this st
    (setSlot (injectorScope this)
       (mkDependencyData (scopedServices d) (onDemandServices d ++ [h])) st).
Proof.
  intros Hd. split; simpl; auto.
  - exists []. by rewrite app_nil_r.
  - exists []. by rewrite app_nil_r.
  - intros c Hc. by rewrite lookup_insert_ne.
  - rewrite Hd. exists [h]. by rewrite lookup_insert_eq.
Qed.

(** A property of states that construction and the service getter
    respect is respected by running a factory. *)
Section RunFactoryFacts.
Context {S : Type} (construct' : list Value -> S -> Value * S)
  (getter : ServiceGetter S) (R : S -> S -> Prop).
Hypothesis R_refl : forall s, R s s.
Hypothesis R_trans : forall s1 s2 s3, R s1 s2 -> R s2 s3 -> R s1 s3.
Hypothesis R_construct : forall args s, R s (construct' args s).2.
Hypothesis R_getter :
  forall key s s', finalState (getter key s) = Some s' -> R s s'.

Lemma runFactory_respects f :
  forall s s', finalState (runFactory construct' getter f s) = Some s' -> R s s'.
Proof.
  induction f as [v|args k IH|key k IH]; intros s s'; simpl.
  - intros [= ->]. apply R_refl.
  - destruct (construct' args s) as [o s1] eqn:E. intros H.
    apply R_trans with s1; [|by eapply IH].
    pose proof (R_construct args s) as Hc. by rewrite E in Hc.
  - destruct (getter key s) as [v s1|e s1|] eqn:E; simpl.
    + intros H. apply R_trans with s1; [|by eapply IH].
      apply (R_getter key). by rewrite E.
    + intros [= <-]. apply (R_getter key). by rewrite E.
    + discriminate.
Qed.
End RunFactoryFacts.

(** ** What [getService] touches *)

Lemma getService_unfold fuel this key st :
  getService (S fuel) this key st =
  match map_get key (registry this) with
  | None => Throws (Error (unregisteredMessage key)) st
  | Some currRegistration =>
      let create := createInstance (getService fuel this) this currRegistration in
      let keys := aliasKeys (registry this) currRegistration in
      match scope currRegistration with
      | SingleInstance =>
          service <- getOrCreate keys create (singleInstanceServices this) st ;;
          fun st' => Returns (instance service) st'
      | Transient =>
          match slots st !! injectorScope this with
          | None => Throws TypeError st
          | Some data =>
              service <- getOrCreate keys create (scopedServices data) st ;;
              fun st' => Returns (instance service) st'
          end
      | OnDemand =>
          onDemandService <- create st ;;
          fun st' =>
            match slots st' !! injectorScope this with
            | None => Throws TypeError st'
            | Some data =>
                Returns (instance onDemandService)
                  (setSlot (injectorScope this)
                     (mkDependencyData (scopedServices data)
                        (onDemandServices data ++ [onDemandService]))
                     st')
            end
      end
  end.
Proof. reflexivity. Qed.

Section Evolution.
Variable this : Injector.
Variable getter : ServiceGetter Store.
Hypothesis getter_evolves :
  forall key s s', finalState (getter key s) = Some s' -> evolves this s s'.

Lemma createInstance_evolves d st st' :
  finalState (createInstance getter this d st) = Some st' -> evolves this st st'.
Proof.
  unfold createInstance, bind.
  destruct (runFactory _ _ _ _) as [v s1|e s1|] eqn:E; simpl; try discriminate.
  - intros [= <-]. eapply evolves_trans; [apply evolves_record|].
    eapply (runFactory_respects construct getter (evolves this));
      eauto using evolves_refl, evolves_trans, evolves_construct.
    by rewrite E.
  - intros [= <-]. eapply evolves_trans; [apply evolves_record|].
    eapply (runFactory_respects construct getter (evolves this));
      eauto using evolves_refl, evolves_trans, evolves_construct.
    by rewrite E.
Qed.

Lemma getOrCreate_evolves keys d l st st' :
  l = singleInstanceServices this
  \/ (exists data, slots st !! injectorScope this = Some data /\ l = scopedServices data) ->
  finalState (getOrCreate keys (createInstance getter this d) l st) = Some st' ->
  evolves this st st'.
Proof.
  intros Hl. unfold getOrCreate, bind.
  destruct (findService keys (readMap l st)) as [h|]; simpl.
  { intros [= <-]. apply evolves_refl. }
  destruct (createInstance getter this d st) as [h s1|e s1|] eqn:E; simpl;
    try discriminate.
  - assert (Hev : evolves this st s1)
      by (apply (createInstance_evolves d); by rewrite E).
    destruct keys as [|key0 rest]; simpl; intros [= <-]; [done|].
    eapply evolves_trans; [exact Hev|]. apply evolves_writeMap.
    destruct Hl as [->|(data & Hd & ->)]; [by left|right].
    pose proof (ev_slot _ _ _ Hev) as Hs. rewrite Hd in Hs.
    destruct Hs as [more Hs]. eauto.
  - intros [= <-]. apply (createInstance_evolves d). by rewrite E.
Qed.
End Evolution.

Lemma getService_evolves fuel this :
  forall key st st',
    finalState (getService fuel this key st) = Some st' -> evolves this st st'.
Proof.
  induction fuel as [|fuel IH]; intros key st st'; [discriminate|].
  rewrite getService_unfold.
  destruct (map_get key (registry this)) as [d|]; simpl.
  2: { intros [= <-]. apply evolves_refl. }
  destruct (scope d).
  - unfold bind.
    destruct (createInstance _ this d st) as [h s1|e s1|] eqn:E; simpl;
      try discriminate.
    + assert (Hev : evolves this st s1)
        by (apply (createInstance_evolves this _ IH d); by rewrite E).
      destruct (slots s1 !! injectorScope this) as [data|] eqn:Hd; simpl;
        intros [= <-]; [|done].
      eapply evolves_trans; [exact Hev|]. by apply evolves_push.
    + intros [= <-]. apply (createInstance_evolves this _ IH d). by rewrite E.
  - unfold bind.
    destruct (getOrCreate _ _ _ st) as [h s1|e s1|] eqn:E; simpl; try discriminate.
    + intros [= <-]. eapply (getOrCreate_evolves this _ IH); [by left|].
      by rewrite E.
    + intros [= <-]. eapply (getOrCreate_evolves this _ IH); [by left|].
      by rewrite E.
  - destruct (slots st !! injectorScope this) as [data|] eqn:Hd; simpl.
    2: { intros [= <-]. apply evolves_refl. }
    unfold bind.
    destruct (getOrCreate _ _ _ st) as [h s1|e s1|] eqn:E; simpl; try discriminate.
    + intros [= <-]. eapply (getOrCreate_evolves this _ IH); [right; eauto|].
      by rewrite E.
    + intros [= <-]. eapply (getOrCreate_evolves this _ IH); [right; eauto|].
      by rewrite E.
Qed.

(** ** The outcome does not depend on the fuel, once there is enough *)

Section FuelMonotone.
Context {S : Type} (construct' : list Value -> S -> Value * S).
Variables getter1 getter2 : ServiceGetter S.
Hypothesis getter_more :
  forall key s o, getter1 key s = o -> o <> OutOfFuel -> getter2 key s = o.

Lemma runFactory_more f :
  forall s o,
    runFactory construct' getter1 f s = o -> o <> OutOfFuel ->
    runFactory construct' getter2 f s = o.
Proof.
  induction f as [v|args k IH|key k IH]; intros s o; simpl.
  - done.
  - destruct (construct' args s) as [x s1]. apply IH.
  - destruct (getter1 key s) as [v s1|e s1|] eqn:E.
    + rewrite (getter_more key s _ E) by done. apply IH.
    + rewrite (getter_more key s _ E) by done. done.
    + intros <-. done.
Qed.
End FuelMonotone.

Lemma createInstance_more getter1 getter2 this d st o :
  (forall key s o, getter1 key s = o -> o <> OutOfFuel -> getter2 key s = o) ->
  createInstance getter1 this d st = o -> o <> OutOfFuel ->
  createInstance getter2 this d st = o.
Proof.
  intros Hg. unfold createInstance, bind.
  destruct (runFactory construct getter1 _ _) as [v s1|e s1|] eqn:E.
  - by rewrite (runFactory_more construct getter1 getter2 Hg _ _ _ E).
  - by rewrite (runFactory_more construct getter1 getter2 Hg _ _ _ E).
  - intros <-. done.
Qed.

Lemma getOrCreate_more keys create1 create2 l st o :
  (forall s o, create1 s = o -> o <> OutOfFuel -> create2 s = o) ->
  getOrCreate keys create1 l st = o -> o <> OutOfFuel ->
  getOrCreate keys create2 l st = o.
Proof.
  intros Hc. unfold getOrCreate, bind.
  destruct (findService keys (readMap l st)); [done|].
  destruct (create1 st) as [h s1|e s1|] eqn:E.
  - by rewrite (Hc _ _ E).
  - by rewrite (Hc _ _ E).
  - intros <-. done.
Qed.

(** A call that finished with some fuel finishes in the same way with
    any greater fuel. *)
Lemma getService_more_fuel this n :
  forall m key st o,
    n <= m ->
    getService n this key st = o -> o <> OutOfFuel ->
    getService m this key st = o.
Proof.
  induction n as [|n IH]; intros m key st o Hle.
  { simpl. intros <-. done. }
  destruct m as [|m]; [lia|]. rewrite !getService_unfold.
  assert (Hg : forall key s o,
             getService n this key s = o -> o <> OutOfFuel ->
             getService m this key s = o)
    by (intros; apply IH; [lia|done..]).
  destruct (map_get key (registry this)) as [d|]; [|done]. simpl.
  pose proof (fun s o => createInstance_more _ _ this d s o Hg) as Hc.
  destruct (scope d).
  - unfold bind.
    destruct (createInstance (getService n this) this d st) as [h s1|e s1|] eqn:E.
    + by rewrite (Hc _ _ E).
    + by rewrite (Hc _ _ E).
    + intros <-. done.
  - unfold bind.
    destruct (getOrCreate _ (createInstance (getService n this) this d) _ st)
      as [h s1|e s1|] eqn:E.
    + by rewrite (getOrCreate_more _ _ _ _ _ _ Hc E).
    + by rewrite (getOrCreate_more _ _ _ _ _ _ Hc E).
    + intros <-. done.
  - destruct (slots st !! injectorScope this) as [data|]; [|done].
    unfold bind.
    destruct (getOrCreate _ (createInstance (getService n this) this d) _ st)
      as [h s1|e s1|] eqn:E.
    + by rewrite (getOrCreate_more _ _ _ _ _ _ Hc E).
    + by rewrite (getOrCreate_more _ _ _ _ _ _ Hc E).
    + intros <-. done.
Qed.

(** ** Alias keys and the cache *)

Lemma aliasKeys_In (registry : Registry) d k :
  In k (aliasKeys registry d) <->
  exists d', In (k, d') registry /\ configRef d' = configRef d.
Proof.
  unfold aliasKeys, map_entries. rewrite in_map_iff. split.
  - intros ([k' d'] & <- & Hin). apply list_elem_of_In, list_elem_of_filter in Hin.
    destruct Hin as [Hsame Hin]. exists d'. split; [by apply list_elem_of_In|].
    simpl in Hsame. apply Is_true_true in Hsame. by apply Nat.eqb_eq in Hsame.
  - intros (d' & Hin & Href). exists (k, d'). split; [done|].
    apply list_elem_of_In, list_elem_of_filter. split; [|by apply list_elem_of_In].
    simpl. apply Is_true_true. by apply Nat.eqb_eq.
Qed.

(** [getService] never hands [getOrCreate] an empty array of keys. *)
Lemma aliasKeys_head (registry : Registry) key d :
  map_get key registry = Some d ->
  exists key0 rest, aliasKeys registry d = key0 :: rest.
Proof.
  intros Hget. apply map_get_In in Hget.
  assert (Hin : In key (aliasKeys registry d)) by (apply aliasKeys_In; eauto).
  destruct (aliasKeys registry d) as [|key0 rest]; [destruct Hin|eauto].
Qed.

Lemma findService_head key0 rest (m : JsMap ServiceHandle) h :
  map_get key0 m = Some h -> findService (key0 :: rest) m = Some h.
Proof. simpl. by intros ->. Qed.

Lemma getOrCreate_hit keys create l st h :
  findService keys (readMap l st) = Some h ->
  getOrCreate keys create l st = Returns h st.
Proof. unfold getOrCreate. by intros ->. Qed.

(** After [getOrCreate] returned a handle, the loop over the same keys
    finds that handle. *)
Lemma getOrCreate_cached this getter d key0 rest l st h st' :
  (forall key s s', finalState (getter key s) = Some s' -> evolves this s s') ->
  l < length (maps st) ->
  getOrCreate (key0 :: rest) (createInstance getter this d) l st = Returns h st' ->
  findService (key0 :: rest) (readMap l st') = Some h.
Proof.
  intros Hg Hl. unfold getOrCreate, bind.
  destruct (findService (key0 :: rest) (readMap l st)) as [h0|] eqn:F.
  { by intros [= <- <-]. }
  destruct (createInstance getter this d st) as [h1 s1|e s1|] eqn:E;
    try discriminate.
  intros [= <- <-]. apply findService_head.
  rewrite readMap_writeMap_eq; [apply map_get_set_eq|].
  assert (Hev : evolves this st s1)
    by (apply (createInstance_evolves this getter Hg d); by rewrite E).
  rewrite (ev_length _ _ _ Hev). done.
Qed.

(** A SingleInstance or Transient resolution that returned leaves the
    handle of what it returned in the cache it used, under the alias keys
    of the descriptor. *)
Lemma getService_singleInstance_cached fuel this key d st v st' :
  map_get key (registry this) = Some d ->
  scope d = SingleInstance ->
  singleInstanceServices this < length (maps st) ->
  getService fuel this key st = Returns v st' ->
  exists h,
    findService (aliasKeys (registry this) d)
      (readMap (singleInstanceServices this) st') = Some h
    /\ instance h = v.
Proof.
  intros Hget Hsc Hl. destruct fuel as [|fuel]; [discriminate|].
  rewrite getService_unfold, Hget. simpl. rewrite Hsc.
  destruct (aliasKeys_head _ _ _ Hget) as (key0 & rest & ->).
  unfold bind at 1.
  destruct (getOrCreate _ _ _ st) as [h s1|e s1|] eqn:E; try discriminate.
  intros [= <- <-]. exists h. split; [|done].
  eapply getOrCreate_cached; eauto using getService_evolves.
Qed.

Lemma getService_transient_cached fuel this key d st v st' :
  map_get key (registry this) = Some d ->
  scope d = Transient ->
  wfStore st ->
  getService fuel this key st = Returns v st' ->
  exists data h,
    slots st' !! injectorScope this = Some data
    /\ findService (aliasKeys (registry this) d)
         (readMap (scopedServices data) st') = Some h
    /\ instance h = v.
Proof.
  intros Hget Hsc Hwf Hrun.
  assert (Hev : evolves this st st')
    by (apply (getService_evolves fuel this key); by rewrite Hrun).
  destruct fuel as [|fuel]; [discriminate|].
  rewrite getService_unfold, Hget in Hrun. simpl in Hrun. rewrite Hsc in Hrun.
  destruct (slots st !! injectorScope this) as [data|] eqn:Hd; [|discriminate].
  destruct (aliasKeys_head _ _ _ Hget) as (key0 & rest & Hk). rewrite Hk in *.
  unfold bind at 1 in Hrun.
  destruct (getOrCreate _ _ _ st) as [h s1|e s1|] eqn:E; try discriminate.
  injection Hrun as <- <-.
  pose proof (ev_slot _ _ _ Hev) as Hs. rewrite Hd in Hs. destruct Hs as [more Hs].
  eexists _, h. split; [exact Hs|]. split; [|done]. simpl.
  eapply getOrCreate_cached; eauto using getService_evolves.
Qed.

(** A resolution that finds a handle in the cache returns its instance
    and changes nothing: no factory is called. *)
Lemma getService_singleInstance_hit fuel this key d st h :
  map_get key (registry this) = Some d ->
  scope d = SingleInstance ->
  findService (aliasKeys (registry this) d)
    (readMap (singleInstanceServices this) st) = Some h ->
  getService (S fuel) this key st = Returns (instance h) st.
Proof.
  intros Hget Hsc Hf. rewrite getService_unfold, Hget. simpl. rewrite Hsc.
  by rewrite (getOrCreate_hit _ _ _ _ h).
Qed.

Lemma getService_transient_hit fuel this key d st data h :
  map_get key (registry this) = Some d ->
  scope d = Transient ->
  slots st !! injectorScope this = Some data ->
  findService (aliasKeys (registry this) d) (readMap (scopedServices data) st) = Some h ->
  getService (S fuel) this key st = Returns (instance h) st.
Proof.
  intros Hget Hsc Hd Hf. rewrite getService_unfold, Hget. simpl. rewrite Hsc, Hd.
  by rewrite (getOrCreate_hit _ _ _ _ h).
Qed.

(** ** Well-formedness is kept *)

Lemma evolves_slot_scoped this st st' c d' :
  evolves this st st' ->
  slots st' !! c = Some d' ->
  exists d, slots st !! c = Some d /\ scopedServices d = scopedServices d'.
Proof.
  intros Hev Hd'. destruct (decide (c = injectorScope this)) as [->|Hne].
  - pose proof (ev_slot _ _ _ Hev) as Hs.
    destruct (slots st !! injectorScope this) as [d|]; [|congruence].
    destruct Hs as [more Hs]. rewrite Hs in Hd'. injection Hd' as <-. eauto.
  - rewrite (ev_slots _ _ _ Hev) in Hd' by done. eauto.
Qed.

Lemma evolves_slot_bound this st st' c :
  evolves this st st' -> is_Some (slots st !! c) -> is_Some (slots st' !! c).
Proof.
  intros Hev [d Hd]. destruct (decide (c = injectorScope this)) as [->|Hne].
  - pose proof (ev_slot _ _ _ Hev) as Hs. rewrite Hd in Hs.
    destruct Hs as [more ->]. eauto.
  - rewrite (ev_slots _ _ _ Hev) by done. eauto.
Qed.

Lemma evolves_wfStore this st st' : evolves this st st' -> wfStore st -> wfStore st'.
Proof.
  intros Hev Hwf c d' Hd'.
  destruct (evolves_slot_scoped _ _ _ _ _ Hev Hd') as (d & Hd & <-).
  rewrite (ev_length _ _ _ Hev). eauto.
Qed.

Lemma evolves_wfInjector this other st st' :
  evolves this st st' -> wfInjector other st -> wfInjector other st'.
Proof.
  intros Hev (Hl & Hb & Hsep). repeat split.
  - by rewrite (ev_length _ _ _ Hev).
  - eauto using evolves_slot_bound.
  - intros c d' Hd'.
    destruct (evolves_slot_scoped _ _ _ _ _ Hev Hd') as (d & Hd & <-). eauto.
Qed.

(** A resolution on one injector leaves the SingleInstance cache of an
    injector with another cache as it was. *)
Lemma getService_frame fuel this other key st st' :
  wfInjector other st ->
  singleInstanceServices other <> singleInstanceServices this ->
  finalState (getService fuel this key st) = Some st' ->
  readMap (singleInstanceServices other) st' = readMap (singleInstanceServices other) st.
Proof.
  intros (_ & _ & Hsep) Hne Hrun. apply readMap_ext.
  apply (ev_maps _ _ _ (getService_evolves _ _ _ _ _ Hrun)); [done|].
  intros d Hd. specialize (Hsep _ _ Hd). congruence.
Qed.

(** ** Resolutions that have to create *)

Lemma evolves_objects_le this st st' :
  evolves this st st' -> length (objects st) <= length (objects st').
Proof. intros [[more ->] _ _ _ _ _]. rewrite length_app. lia. Qed.

Lemma runFactory_constructs this getter f :
  (forall key s s', finalState (getter key s) = Some s' -> evolves this s s') ->
  constructs f ->
  forall st v st',
    runFactory construct getter f st = Returns v st' ->
    exists l, v = VObject l /\ length (objects st) <= l < length (objects st').
Proof.
  intros Hg Hc. induction Hc as [args|key k Hk IH|args k Hk IH]; intros st v st'; simpl.
  - intros [= <- <-]. eexists. split; [done|]. simpl. rewrite length_app. simpl. lia.
  - destruct (getter key st) as [v1 s1|e s1|] eqn:E; try discriminate.
    intros Hrun. destruct (IH _ _ _ _ Hrun) as (l & -> & Hl).
    exists l. split; [done|].
    assert (length (objects st) <= length (objects s1)); [|lia].
    apply (evolves_objects_le this), (Hg key). by rewrite E.
  - intros Hrun. destruct (IH _ _ _ _ Hrun) as (l & -> & Hl).
    exists l. split; [done|]. simpl in Hl. rewrite length_app in Hl. lia.
Qed.

(** [createInstance] calls the factory first, and what a constructing
    factory returns is an object that did not exist before the call. *)
Lemma createInstance_calls this getter d st h st' :
  (forall key s s', finalState (getter key s) = Some s' -> evolves this s s') ->
  createInstance getter this d st = Returns h st' ->
  handleOnScopeEnd h = onScopeEnd d
  /\ (exists more,
        trace st' = trace st
          ++ FactoryCalled (functionRef (factory d)) (VObject (injectorScope this))
          :: more)
  /\ (constructs (call (factory d) (VObject (injectorScope this))) ->
      exists l, instance h = VObject l
                /\ length (objects st) <= l < length (objects st')).
Proof.
  intros Hg. unfold createInstance, bind.
  destruct (runFactory _ _ _ _) as [v s1|e s1|] eqn:E; try discriminate.
  intros [= <- <-]. simpl. split; [done|]. split.
  - assert (Hev : evolves this (record (FactoryCalled (functionRef (factory d))
                                          (VObject (injectorScope this))) st) s1).
    { eapply (runFactory_respects construct getter (evolves this));
        eauto using evolves_refl, evolves_trans, evolves_construct.
      by rewrite E. }
    destruct (ev_trace _ _ _ Hev) as [more ->]. simpl.
    exists more. by rewrite <- app_assoc.
  - intros Hc. by apply (runFactory_constructs this getter _ Hg Hc _ _ _ E).
Qed.

Lemma getOrCreate_miss keys create l st h st' :
  findService keys (readMap l st) = None ->
  getOrCreate keys create l st = Returns h st' ->
  exists s1, create st = Returns h s1
             /\ trace st' = trace s1 /\ objects st' = objects s1.
Proof.
  intros Hf. unfold getOrCreate, bind. rewrite Hf.
  destruct (create st) as [h1 s1|e s1|]; try discriminate.
  destruct keys; intros [= <- <-]; eauto.
Qed.

Lemma getService_creates fuel this key d st v st' :
  map_get key (registry this) = Some d ->
  uncached this d st ->
  getService fuel this key st = Returns v st' ->
  (exists more,
     trace st' = trace st
       ++ FactoryCalled (functionRef (factory d)) (VObject (injectorScope this))
       :: more)
  /\ (constructs (call (factory d) (VObject (injectorScope this))) ->
      exists l, v = VObject l /\ length (objects st) <= l < length (objects st')).
Proof.
  intros Hget Hun. destruct fuel as [|fuel]; [discriminate|].
  rewrite getService_unfold, Hget. simpl. unfold uncached in Hun.
  pose proof (getService_evolves fuel this) as Hg.
  destruct (scope d).
  - unfold bind.
    destruct (createInstance _ this d st) as [h s1|e s1|] eqn:E; try discriminate.
    destruct (slots s1 !! injectorScope this); [|discriminate].
    intros [= <- <-]. simpl.
    destruct (createInstance_calls _ _ _ _ _ _ Hg E) as (_ & Ht & Hc). eauto.
  - unfold bind at 1.
    destruct (getOrCreate _ _ _ st) as [h s1|e s1|] eqn:E; try discriminate.
    intros [= <- <-].
    destruct (getOrCreate_miss _ _ _ _ _ _ Hun E) as (s2 & Hcr & -> & ->).
    destruct (createInstance_calls _ _ _ _ _ _ Hg Hcr) as (_ & Ht & Hc). eauto.
  - destruct (slots st !! injectorScope this) as [data|] eqn:Hd; [|discriminate].
    unfold bind at 1.
    destruct (getOrCreate _ _ _ st) as [h s1|e s1|] eqn:E; try discriminate.
    intros [= <- <-].
    destruct (getOrCreate_miss _ _ _ _ _ _ (Hun _ eq_refl) E) as (s2 & Hcr & -> & ->).
    destruct (createInstance_calls _ _ _ _ _ _ Hg Hcr) as (_ & Ht & Hc). eauto.
Qed.

(** ** [endScope], the constructor and [createScope] on the store *)

Lemma dispose_all context handles :
  forall st,
    fold_left (fun s h => record (scopeEndEvent context h) s) handles st
    = mkStore (objects st) (maps st) (slots st)
        (trace st ++ map (scopeEndEvent context) handles).
Proof.
  induction handles as [|h handles IH]; intros st; simpl.
  - rewrite app_nil_r. by destruct st.
  - rewrite IH. simpl. by rewrite <- app_assoc.
Qed.

Lemma endScope_store this st data :
  slots st !! injectorScope this = Some data ->
  endScope this st
  = Returns tt
      (mkStore (objects st) (maps st ++ [[]])
         (<[injectorScope this := mkDependencyData (length (maps st)) []]> (slots st))
         (trace st
            ++ map (scopeEndEvent (injectorScope this))
                 (servicesToDispose this data st))).
Proof. intros Hd. unfold endScope. rewrite Hd, dispose_all. reflexivity. Qed.

Lemma endScope_returns this st :
  is_Some (slots st !! injectorScope this) -> exists st', endScope this st = Returns tt st'.
Proof. intros [data Hd]. rewrite (endScope_store _ _ _ Hd). eauto. Qed.

Lemma createScope_child this newScope st :
  (createScope this newScope st).1
  = mkInjector false newScope (registry this) (length (maps st)).
Proof.
  unfold createScope, newInjector. simpl.
  by destruct (slots st !! newScope).
Qed.

Lemma createScope_store_bound this newScope st :
  is_Some (slots st !! newScope) ->
  (createScope this newScope st).2
  = mkStore (objects st) (maps st ++ [readMap (singleInstanceServices this) st])
      (slots st) (trace st).
Proof. intros [d Hd]. unfold createScope, newInjector. simpl. by rewrite Hd. Qed.

Lemma createScope_store_unbound this newScope st :
  slots st !! newScope = None ->
  (createScope this newScope st).2
  = mkStore (objects st)
      ((maps st ++ [readMap (singleInstanceServices this) st]) ++ [[]])
      (<[newScope := mkDependencyData (S (length (maps st))) []]> (slots st))
      (trace st).
Proof.
  intros Hd. unfold createScope, newInjector. simpl. rewrite Hd. simpl.
  rewrite length_app. simpl. by rewrite Nat.add_1_r.
Qed.

Lemma endScope_wf this st st' :
  wfStore st ->
  endScope this st = Returns tt st' ->
  wfStore st'
  /\ (forall other, wfInjector other st -> wfInjector other st')
  /\ (forall l, l < length (maps st) -> readMap l st' = readMap l st)
  /\ objects st' = objects st.
Proof.
  intros Hwf Hend.
  destruct (slots st !! injectorScope this) as [data|] eqn:Hd.
  2: { unfold endScope in Hend. by rewrite Hd in Hend. }
  rewrite (endScope_store _ _ _ Hd) in Hend. injection Hend as <-.
  split_and!.
  - intros c d. simpl. rewrite length_app. simpl.
    destruct (decide (injectorScope this = c)) as [->|Hne].
    + rewrite lookup_insert_eq. intros [= <-]. simpl. lia.
    + rewrite lookup_insert_ne by done. intros Hc. specialize (Hwf _ _ Hc). lia.
  - intros other (Hl & [d Hb] & Hsep). unfold wfInjector. simpl. split_and!.
    + rewrite length_app. simpl. lia.
    + destruct (decide (injectorScope this = injectorScope other)) as [->|Hne].
      * rewrite lookup_insert_eq. eauto.
      * rewrite lookup_insert_ne by done. eauto.
    + intros c d'. destruct (decide (injectorScope this = c)) as [->|Hne].
      * rewrite lookup_insert_eq. intros [= <-]. simpl. lia.
      * rewrite lookup_insert_ne by done. apply Hsep.
  - intros l Hl. unfold readMap. simpl. by rewrite lookup_app_l.
  - done.
Qed.

Lemma createScope_wf this newScope st child st' :
  wfStore st ->
  wfInjector this st ->
  createScope this newScope st = (child, st') ->
  wfStore st'
  /\ wfInjector this st'
  /\ wfInjector child st'
  /\ singleInstanceServices child = length (maps st)
  /\ readMap (singleInstanceServices child) st'
     = readMap (singleInstanceServices this) st
  /\ (forall l, l < length (maps st) -> readMap l st' = readMap l st)
  /\ (forall c, c <> newScope -> slots st' !! c = slots st !! c).
Proof.
  intros Hwf (Hl & Hb & Hsep) Hcs.
  assert (Hc : child = (createScope this newScope st).1) by by rewrite Hcs.
  assert (Hs : st' = (createScope this newScope st).2) by by rewrite Hcs.
  rewrite createScope_child in Hc. subst child. simpl.
  destruct (slots st !! newScope) as [dn|] eqn:Hn.
  - rewrite createScope_store_bound in Hs by eauto. subst st'.
    unfold wfStore, wfInjector, readMap. simpl. rewrite !length_app. simpl.
    repeat split.
    + intros c d Hd. specialize (Hwf _ _ Hd). lia.
    + lia.
    + done.
    + done.
    + lia.
    + eauto.
    + intros c d Hd. specialize (Hwf _ _ Hd). lia.
    + by rewrite list_lookup_middle.
    + intros l Hlt. by rewrite lookup_app_l.
  - rewrite createScope_store_unbound in Hs by done. subst st'.
    unfold wfStore, wfInjector, readMap. simpl. rewrite !length_app. simpl.
    repeat split.
    + intros c d. destruct (decide (newScope = c)) as [->|Hne].
      * rewrite lookup_insert_eq. intros [= <-]. simpl. lia.
      * rewrite lookup_insert_ne by done. intros Hd. specialize (Hwf _ _ Hd). lia.
    + lia.
    + destruct Hb as [d Hb].
      destruct (decide (newScope = injectorScope this)) as [->|Hne].
      * rewrite lookup_insert_eq. eauto.
      * rewrite lookup_insert_ne by done. eauto.
    + intros c d. destruct (decide (newScope = c)) as [->|Hne].
      * rewrite lookup_insert_eq. intros [= <-]. simpl. lia.
      * rewrite lookup_insert_ne by done. apply Hsep.
    + lia.
    + rewrite lookup_insert_eq. eauto.
    + intros c d. destruct (decide (newScope = c)) as [->|Hne].
      * rewrite lookup_insert_eq. intros [= <-]. simpl. lia.
      * rewrite lookup_insert_ne by done. intros Hd. specialize (Hwf _ _ Hd). lia.
    + rewrite lookup_app_l by (rewrite length_app; simpl; lia).
      by rewrite list_lookup_middle.
    + intros l Hlt. rewrite lookup_app_l by (rewrite length_app; simpl; lia).
      by rewrite lookup_app_l.
    + intros c Hne. by rewrite lookup_insert_ne.
Qed.

(** A root injector made by the constructor with its default arguments is
    well formed. *)
Lemma newInjector_wf scope' registry' st this st' :
  wfStore st ->
  newInjector scope' registry' None true st = (this, st') ->
  wfStore st' /\ wfInjector this st'
  /\ readMap (singleInstanceServices this) st' = []
  /\ isMainScope this = true /\ injectorScope this = scope'.
Proof.
  intros Hwf. unfold newInjector. simpl.
  destruct (slots st !! scope') as [d|] eqn:Hd; intros [= <- <-];
    unfold wfStore, wfInjector, readMap; simpl; rewrite ?length_app; simpl.
  - repeat split.
    + intros c d' Hd'. specialize (Hwf _ _ Hd'). lia.
    + lia.
    + eauto.
    + intros c d' Hd'. specialize (Hwf _ _ Hd'). lia.
    + by rewrite list_lookup_middle.
  - repeat split.
    + intros c d'. destruct (decide (scope' = c)) as [->|Hne].
      * rewrite lookup_insert_eq. intros [= <-]. simpl. lia.
      * rewrite lookup_insert_ne by done. intros Hd'. specialize (Hwf _ _ Hd'). lia.
    + lia.
    + rewrite lookup_insert_eq. eauto.
    + intros c d'. destruct (decide (scope' = c)) as [->|Hne].
      * rewrite lookup_insert_eq. intros [= <-]. simpl. lia.
      * rewrite lookup_insert_ne by done. intros Hd'. specialize (Hwf _ _ Hd'). lia.
    + rewrite lookup_app_l by (rewrite length_app; simpl; lia).
      by rewrite list_lookup_middle.
Qed.

(** ** What [getService] throws *)

Section RunFactoryThrows.
Context {S : Type} (construct' : list Value -> S -> Value * S)
  (getter : ServiceGetter S) (Inv : S -> Prop) (P : Exception -> Prop).
Hypothesis Inv_construct : forall args s, Inv s -> Inv (construct' args s).2.
Hypothesis Inv_getter :
  forall key s v s', Inv s -> getter key s = Returns v s' -> Inv s'.
Hypothesis P_getter :
  forall key s e s', Inv s -> getter key s = Throws e s' -> P e.

Lemma runFactory_throws f :
  forall s e s', Inv s -> runFactory construct' getter f s = Throws e s' -> P e.
Proof.
  induction f as [v|args k IH|key k IH]; intros s e s' Hs; simpl.
  - discriminate.
  - destruct (construct' args s) as [o s1] eqn:E. apply IH.
    pose proof (Inv_construct args s Hs) as Hc. by rewrite E in Hc.
  - destruct (getter key s) as [v s1|e1 s1|] eqn:E; try discriminate.
    + apply IH. eauto.
    + intros [= <- <-]. eauto.
Qed.
End RunFactoryThrows.

Lemma getService_throws fuel this :
  forall key st e st',
    is_Some (slots st !! injectorScope this) ->
    getService fuel this key st = Throws e st' ->
    exists k, map_get k (registry this) = None /\ e = Error (unregisteredMessage k).
Proof.
  induction fuel as [|fuel IH]; intros key st e st' Hb; [discriminate|].
  rewrite getService_unfold.
  destruct (map_get key (registry this)) as [d|] eqn:Hget; simpl.
  2: { intros [= <- <-]. eauto. }
  assert (Hcreate : forall s e1 s1,
             is_Some (slots s !! injectorScope this) ->
             createInstance (getService fuel this) this d s = Throws e1 s1 ->
             exists k, map_get k (registry this) = None
                       /\ e1 = Error (unregisteredMessage k)).
  { intros s e1 s1 Hs. unfold createInstance, bind.
    destruct (runFactory _ _ _ _) as [v s2|e2 s2|] eqn:E; try discriminate.
    intros [= <- <-].
    eapply (runFactory_throws construct (getService fuel this)
              (fun s => is_Some (slots s !! injectorScope this))
              (fun e => exists k, map_get k (registry this) = None
                                  /\ e = Error (unregisteredMessage k)));
      [| | | |exact E].
    - done.
    - intros key' s0 v s0' Hs0 Hrun.
      eapply evolves_slot_bound; [|exact Hs0].
      apply (getService_evolves fuel this key'). by rewrite Hrun.
    - intros key' s0 e0 s0' Hs0 Hrun. exact (IH _ _ _ _ Hs0 Hrun).
    - done. }
  destruct (scope d).
  - unfold bind.
    destruct (createInstance _ this d st) as [h s1|e1 s1|] eqn:E; try discriminate.
    + assert (Hs1 : is_Some (slots s1 !! injectorScope this)).
      { eapply evolves_slot_bound; [|exact Hb].
        apply (createInstance_evolves this _ (getService_evolves fuel this) d).
        by rewrite E. }
      destruct Hs1 as [data ->]. discriminate.
    + intros [= <- <-]. eauto.
  - unfold bind at 1, getOrCreate, bind.
    destruct (findService _ _); [discriminate|].
    destruct (createInstance _ this d st) as [h s1|e1 s1|] eqn:E.
    + destruct (aliasKeys _ _); discriminate.
    + intros [= <- <-]. eauto.
    + discriminate.
  - destruct Hb as [data Hd]. rewrite Hd.
    unfold bind at 1, getOrCreate, bind.
    destruct (findService _ _); [discriminate|].
    destruct (createInstance _ this d st) as [h s1|e1 s1|] eqn:E.
    + destruct (aliasKeys _ _); discriminate.
    + intros [= <- <-]. eapply Hcreate; [|exact E]. rewrite Hd. eauto.
    + discriminate.
Qed.

(** C4: for a key with no descriptor in the registry, [getService] throws
    the error whose message names that key and leaves the store (both
    caches and the on-demand array) as it was; and on an injector whose
    context carries its field this is the only error a call of
    [getService] ends with, whatever the fuel and the key. *)
Theorem getService_unregistered fuel this key st :
  map_get key (registry this) = None ->
  getService (S fuel) this key st = Throws (Error (unregisteredMessage key)) st
  /\ (forall fuel' key' e st',
         is_Some (slots st !! injectorScope this) ->
         getService fuel' this key' st = Throws e st' ->
         exists k, map_get k (registry this) = None
                   /\ e = Error (unregisteredMessage k)).
Proof.
  intros Hget. split.
  - by rewrite getService_unfold, Hget.
  - intros fuel' key' e st' Hb Hrun. eapply getService_throws; eauto.
Qed.

(** ** SingleInstance *)

(** Once a SingleInstance key has been resolved on a scope, resolving it
    or any key registered with it again on that scope returns the same
    instance and calls no factory. *)
Lemma singleInstance_reused fuel this key key' d st v st' :
  singleInstanceServices this < length (maps st) ->
  map_get key (registry this) = Some d ->
  map_get key' (registry this) = Some d ->
  scope d = SingleInstance ->
  getService fuel this key st = Returns v st' ->
  forall fuel', getService (S fuel') this key' st' = Returns v st'.
Proof.
  intros Hl Hget Hget' Hsc Hrun fuel'.
  destruct (getService_singleInstance_cached _ _ _ _ _ _ _ Hget Hsc Hl Hrun)
    as (h & Hf & <-).
  by apply (getService_singleInstance_hit _ _ _ d).
Qed.

(** A scope created after the resolution inherits the instance. *)
Lemma singleInstance_inherited fuel this key d st v st1 newScope child st2 :
  singleInstanceServices this < length (maps st) ->
  map_get key (registry this) = Some d ->
  scope d = SingleInstance ->
  getService fuel this key st = Returns v st1 ->
  createScope this newScope st1 = (child, st2) ->
  forall fuel', getService (S fuel') child key st2 = Returns v st2.
Proof.
  intros Hl Hget Hsc Hrun Hcs fuel'.
  destruct (getService_singleInstance_cached _ _ _ _ _ _ _ Hget Hsc Hl Hrun)
    as (h & Hf & <-).
  assert (Hc : child = (createScope this newScope st1).1) by by rewrite Hcs.
  assert (Hs : st2 = (createScope this newScope st1).2) by by rewrite Hcs.
  rewrite createScope_child in Hc.
  apply (getService_singleInstance_hit _ _ _ d); subst child; simpl; try done.
  replace (readMap (length (maps st1)) st2)
    with (readMap (singleInstanceServices this) st1); [done|].
  subst st2. unfold createScope, newInjector, readMap. simpl.
  destruct (slots st1 !! newScope); simpl.
  - by rewrite list_lookup_middle.
  - rewrite lookup_app_l by (rewrite length_app; simpl; lia).
    by rewrite list_lookup_middle.
Qed.

(** C1, at the input where the code departs from it: a child scope made
    by [createScope] before the first resolution.  The root resolves
    'Cache' and gets the object 12; the child then resolves 'Cache', does
    not find it in its copy of the cache, calls the factory again and gets
    another object, 14. *)
Theorem singleInstance_not_shared_with_earlier_child :
  let '(root, st0) := demoRoot in
  let '(child, st1) := createScope root 1 st0 in
  exists st2 st3,
    getService 3 root "Cache" st1 = Returns (VObject 12) st2
    /\ getService 3 child "Cache" st2 = Returns (VObject 14) st3
    /\ trace st3
       = [FactoryCalled 6 (VObject 0); FactoryCalled 3 (VObject 0);
          FactoryCalled 6 (VObject 1); FactoryCalled 3 (VObject 1)].
Proof. vm_compute. do 2 eexists. repeat split. Qed.

(** C2: [createScope] returns a scope that is not the main one, bound to
    the new context, over the same registry, whose SingleInstance cache is
    a new [Map] holding the entries the parent's cache has at that moment,
    so that the child resolves a SingleInstance key the parent holds to
    the parent's instance.  From then on the two caches are apart: in any
    later store, a resolution on the parent leaves the child's cache as it
    is, and a resolution on the child leaves the parent's as it is. *)
Theorem createScope_snapshot this newScope st child st' :
  wfStore st ->
  wfInjector this st ->
  createScope this newScope st = (child, st') ->
  isMainScope child = false
  /\ injectorScope child = newScope
  /\ registry child = registry this
  /\ singleInstanceServices child <> singleInstanceServices this
  /\ readMap (singleInstanceServices child) st'
     = readMap (singleInstanceServices this) st
  /\ readMap (singleInstanceServices this) st'
     = readMap (singleInstanceServices this) st
  /\ (forall fuel key d h,
         map_get key (registry this) = Some d ->
         scope d = SingleInstance ->
         findService (aliasKeys (registry this) d)
           (readMap (singleInstanceServices this) st) = Some h ->
         getService (S fuel) child key st' = Returns (instance h) st')
  /\ wfInjector this st' /\ wfInjector child st'
  /\ (forall s fuel key s',
         wfInjector child s ->
         finalState (getService fuel this key s) = Some s' ->
         readMap (singleInstanceServices child) s'
         = readMap (singleInstanceServices child) s
         /\ wfInjector child s')
  /\ (forall s fuel key s',
         wfInjector this s ->
         finalState (getService fuel child key s) = Some s' ->
         readMap (singleInstanceServices this) s'
         = readMap (singleInstanceServices this) s
         /\ wfInjector this s').
Proof.
  intros Hwf Hthis Hcs.
  destruct (createScope_wf _ _ _ _ _ Hwf Hthis Hcs)
    as (Hwf' & Hthis' & Hchild' & Hsi & Hcopy & Hold & _).
  assert (Hc : child = (createScope this newScope st).1) by by rewrite Hcs.
  rewrite createScope_child in Hc.
  assert (Hne : singleInstanceServices child <> singleInstanceServices this).
  { destruct Hthis as (Hl & _). rewrite Hsi. lia. }
  split_and!; try (subst child; done); try done.
  - apply Hold. by destruct Hthis.
  - intros fuel key d h Hget Hsc Hfound.
    assert (Hreg : registry child = registry this) by by subst child.
    apply (getService_singleInstance_hit _ _ _ d); rewrite ?Hcopy, ?Hreg; done.
  - intros s fuel key s' Hchild Hrun. split.
    + by apply (getService_frame fuel this child key).
    + exact (evolves_wfInjector this child s s'
               (getService_evolves _ _ _ _ _ Hrun) Hchild).
  - intros s fuel key s' Hparent Hrun. split.
    + apply (getService_frame fuel child this key); [done|congruence|done].
    + exact (evolves_wfInjector child this s s'
               (getService_evolves _ _ _ _ _ Hrun) Hparent).
Qed.

(** ** [endScope] *)

Lemma findService_empty keys : findService keys [] = None.
Proof. induction keys; simpl; auto. Qed.

Lemma findService_In keys (m : JsMap ServiceHandle) h :
  findService keys m = Some h -> In h (map_values m).
Proof.
  induction keys as [|k keys IH]; simpl; [discriminate|].
  destruct (map_get k m) as [h'|] eqn:E; [|done].
  intros [= ->]. apply map_get_In in E. unfold map_values.
  apply in_map_iff. by exists (k, h).
Qed.

(** After [endScope] nothing is cached for a key that is not
    SingleInstance. *)
Lemma endScope_uncached this st st' d :
  endScope this st = Returns tt st' ->
  scope d <> SingleInstance ->
  uncached this d st'.
Proof.
  intros Hend Hsc.
  destruct (slots st !! injectorScope this) as [data|] eqn:Hd.
  2: { unfold endScope in Hend. by rewrite Hd in Hend. }
  rewrite (endScope_store _ _ _ Hd) in Hend. injection Hend as <-.
  unfold uncached. destruct (scope d); [done|done|].
  intros data'. simpl. rewrite lookup_insert_eq. intros [= <-].
  unfold readMap. simpl. rewrite list_lookup_middle by done. simpl.
  apply findService_empty.
Qed.

(** C3: [endScope] calls the [onScopeEnd] of every handle the scope
    tracks once, in this order: the on-demand handles as they were pushed,
    the handles of the Transient cache as they were inserted, and, on the
    main scope only, the handles of the SingleInstance cache as they were
    inserted.  Afterwards the on-demand array and the Transient cache of
    the scope are empty, as [createDependencyData] makes them, so that a
    later resolution of a Transient or OnDemand key calls its factory
    again (and, when the factory constructs its result, returns an object
    that did not exist when the scope ended). *)
Theorem endScope_disposes this st data :
  slots st !! injectorScope this = Some data ->
  exists st',
    endScope this st = Returns tt st'
    /\ trace st'
       = trace st
         ++ map (scopeEndEvent (injectorScope this))
              (onDemandServices data
                 ++ map_values (readMap (scopedServices data) st)
                 ++ (if isMainScope this
                     then map_values (readMap (singleInstanceServices this) st)
                     else []))
    /\ (exists data',
           slots st' !! injectorScope this = Some data'
           /\ onDemandServices data' = []
           /\ readMap (scopedServices data') st' = [])
    /\ (forall fuel key d v st'',
           map_get key (registry this) = Some d ->
           scope d <> SingleInstance ->
           getService fuel this key st' = Returns v st'' ->
           (exists more,
               trace st''
               = trace st'
                 ++ FactoryCalled (functionRef (factory d))
                      (VObject (injectorScope this))
                 :: more)
           /\ (constructs (call (factory d) (VObject (injectorScope this))) ->
               exists l, v = VObject l /\ length (objects st') <= l)).
Proof.
  intros Hd. destruct (endScope_returns this st) as [st' Hend]; [eauto|].
  exists st'. split; [done|].
  pose proof Hend as Hst. rewrite (endScope_store _ _ _ Hd) in Hst.
  injection Hst as Hst. split_and!.
  - subst st'. simpl. unfold servicesToDispose. by rewrite <- app_assoc.
  - subst st'. simpl. eexists. rewrite lookup_insert_eq. split_and!; try done.
    unfold readMap. simpl. by rewrite list_lookup_middle.
  - intros fuel key d v st'' Hget Hsc Hrun.
    destruct (getService_creates _ _ _ _ _ _ _ Hget
                (endScope_uncached _ _ _ _ Hend Hsc) Hrun) as (Ht & Hc).
    split; [done|]. intros Hcons. destruct (Hc Hcons) as (l & -> & Hl & _). eauto.
Qed.

(** C10: [endScope] leaves the SingleInstance cache as it is, on the main
    scope too.  After it a resolution of a SingleInstance key resolved
    before finds the old handle and returns the instance that was already
    disposed of, calling no factory; and on the main scope a second
    [endScope] calls the [onScopeEnd] of the same SingleInstance handles,
    that of the instance among them, once more. *)
Theorem endScope_keeps_singleInstances fuel this key d st v st1 st2 :
  singleInstanceServices this < length (maps st) ->
  map_get key (registry this) = Some d ->
  scope d = SingleInstance ->
  getService fuel this key st = Returns v st1 ->
  endScope this st1 = Returns tt st2 ->
  readMap (singleInstanceServices this) st2 = readMap (singleInstanceServices this) st1
  /\ (forall fuel', getService (S fuel') this key st2 = Returns v st2)
  /\ (isMainScope this = true ->
      exists h before st3,
        In h (map_values (readMap (singleInstanceServices this) st1))
        /\ instance h = v
        /\ trace st2
           = (trace st1 ++ map (scopeEndEvent (injectorScope this)) before)
             ++ map (scopeEndEvent (injectorScope this))
                  (map_values (readMap (singleInstanceServices this) st1))
        /\ endScope this st2 = Returns tt st3
        /\ trace st3
           = trace st2
             ++ map (scopeEndEvent (injectorScope this))
                  (map_values (readMap (singleInstanceServices this) st1))).
Proof.
  intros Hl Hget Hsc Hrun Hend.
  destruct (getService_singleInstance_cached _ _ _ _ _ _ _ Hget Hsc Hl Hrun)
    as (h & Hf & Hv).
  assert (Hl1 : singleInstanceServices this < length (maps st1)).
  { rewrite (ev_length _ _ _ (getService_evolves fuel this key st st1
                                ltac:(by rewrite Hrun))). done. }
  destruct (slots st1 !! injectorScope this) as [data|] eqn:Hd.
  2: { unfold endScope in Hend. by rewrite Hd in Hend. }
  pose proof Hend as Hst. rewrite (endScope_store _ _ _ Hd) in Hst.
  injection Hst as Hst.
  assert (Hsame : readMap (singleInstanceServices this) st2
                  = readMap (singleInstanceServices this) st1).
  { subst st2. unfold readMap. simpl. by rewrite lookup_app_l. }
  split_and!.
  - done.
  - intros fuel'. rewrite <- Hv.
    apply (getService_singleInstance_hit _ _ _ d); try done. by rewrite Hsame.
  - intros Hmain.
    assert (Hd2 : slots st2 !! injectorScope this
                  = Some (mkDependencyData (length (maps st1)) [])).
    { subst st2. simpl. by rewrite lookup_insert_eq. }
    destruct (endScope_returns this st2) as [st3 Hend2]; [eauto|].
    exists h, (onDemandServices data ++ map_values (readMap (scopedServices data) st1)), st3.
    split_and!; try done.
    + by apply (findService_In (aliasKeys (registry this) d)).
    + subst st2. simpl. unfold servicesToDispose. rewrite Hmain.
      by rewrite map_app, app_assoc.
    + pose proof Hend2 as Hst3. rewrite (endScope_store _ _ _ Hd2) in Hst3.
      injection Hst3 as <-. simpl. unfold servicesToDispose. simpl.
      rewrite Hmain, Hsame. f_equal. f_equal.
      subst st2. unfold readMap. simpl. by rewrite list_lookup_middle.
Qed.

(** ** Transient *)

(** Once a Transient key has been resolved through a context, resolving
    it, or any key registered with it, through the same context (by the
    same injector or by another one over the same registry) returns the
    same instance and calls no factory. *)
Lemma transient_reused fuel this other key key' d st v st' :
  wfStore st ->
  injectorScope other = injectorScope this ->
  registry other = registry this ->
  map_get key (registry this) = Some d ->
  map_get key' (registry this) = Some d ->
  scope d = Transient ->
  getService fuel this key st = Returns v st' ->
  forall fuel', getService (S fuel') other key' st' = Returns v st'.
Proof.
  intros Hwf Hsame Hreg Hget Hget' Hsc Hrun fuel'.
  destruct (getService_transient_cached _ _ _ _ _ _ _ Hget Hsc Hwf Hrun)
    as (data & h & Hd & Hf & <-).
  apply (getService_transient_hit _ _ _ d _ data); rewrite ?Hsame, ?Hreg; done.
Qed.

(** The scoped cache of a context that had no field when the scope was
    created holds nothing. *)
Lemma createScope_uncached this newScope st child st' d :
  slots st !! newScope = None ->
  createScope this newScope st = (child, st') ->
  scope d = Transient ->
  uncached child d st'.
Proof.
  intros Hn Hcs Hsc.
  assert (Hc : child = (createScope this newScope st).1) by by rewrite Hcs.
  assert (Hs : st' = (createScope this newScope st).2) by by rewrite Hcs.
  rewrite createScope_child in Hc.
  rewrite createScope_store_unbound in Hs by done. subst child st'.
  unfold uncached. rewrite Hsc. simpl. intros data.
  rewrite lookup_insert_eq. intros [= <-]. unfold readMap. simpl.
  rewrite list_lookup_middle by (rewrite length_app; simpl; lia).
  apply findService_empty.
Qed.

Lemma createScope_objects this newScope st :
  objects (createScope this newScope st).2 = objects st.
Proof.
  unfold createScope, newInjector. simpl. by destruct (slots st !! newScope).
Qed.

Lemma fresh_differs st v l :
  existsIn st v -> length (objects st) <= l -> VObject l <> v.
Proof. intros Hv Hl <-. simpl in Hv. lia. Qed.

(** C5, as the code has it.  For a Transient key: a second [getService]
    on the same scope returns the same instance; a scope made by
    [createScope] whose context holds no handle for the key (any context
    object that has no field yet is such a one, the parent's own context
    object is not) calls the factory at its first [getService] and, when
    the factory constructs its result, returns an object that did not
    exist before, so not the parent's instance; and after [endScope] a
    [getService] on the same scope calls the factory again and returns a
    new object likewise. *)
Theorem transient_per_context fuel this key d st v st1 :
  wfStore st ->
  map_get key (registry this) = Some d ->
  scope d = Transient ->
  getService fuel this key st = Returns v st1 ->
  (forall fuel', getService (S fuel') this key st1 = Returns v st1)
  /\ (forall newScope child st2,
         createScope this newScope st1 = (child, st2) ->
         (slots st1 !! newScope = None -> uncached child d st2)
         /\ forall fuel' v' st3,
             uncached child d st2 ->
             getService fuel' child key st2 = Returns v' st3 ->
             (exists more,
                 trace st3
                 = trace st2
                   ++ FactoryCalled (functionRef (factory d)) (VObject newScope)
                   :: more)
             /\ (constructs (call (factory d) (VObject newScope)) ->
                 (exists l, v' = VObject l /\ length (objects st1) <= l)
                 /\ (existsIn st1 v -> v' <> v)))
  /\ (forall st2 fuel' v' st3,
         endScope this st1 = Returns tt st2 ->
         getService fuel' this key st2 = Returns v' st3 ->
         (exists more,
             trace st3
             = trace st2
               ++ FactoryCalled (functionRef (factory d))
                    (VObject (injectorScope this))
               :: more)
         /\ (constructs (call (factory d) (VObject (injectorScope this))) ->
             (exists l, v' = VObject l /\ length (objects st1) <= l)
             /\ (existsIn st1 v -> v' <> v))).
Proof.
  intros Hwf Hget Hsc Hrun. split_and!.
  - by apply (transient_reused fuel this this key key d st).
  - intros newScope child st2 Hcs. split.
    { intros Hn. by apply (createScope_uncached this newScope st1). }
    intros fuel' v' st3 Hun Hrun'.
    assert (Hc : child = (createScope this newScope st1).1) by by rewrite Hcs.
    assert (Hs : st2 = (createScope this newScope st1).2) by by rewrite Hcs.
    rewrite createScope_child in Hc.
    assert (Hobj : objects st2 = objects st1)
      by (rewrite Hs; apply createScope_objects).
    assert (Hget' : map_get key (registry child) = Some d) by by subst child.
    destruct (getService_creates _ _ _ _ _ _ _ Hget' Hun Hrun') as (Ht & Hc').
    subst child. simpl in Ht, Hc'. split; [done|]. intros Hcons.
    destruct (Hc' Hcons) as (l & -> & Hl & _). rewrite Hobj in Hl.
    split; [eauto|]. intros Hv. by apply (fresh_differs st1).
  - intros st2 fuel' v' st3 Hend Hrun'.
    assert (Hne : scope d <> SingleInstance) by by rewrite Hsc.
    destruct (getService_creates _ _ _ _ _ _ _ Hget
                (endScope_uncached _ _ _ _ Hend Hne) Hrun') as (Ht & Hc').
    split; [done|]. intros Hcons.
    destruct (Hc' Hcons) as (l & -> & Hl & _).
    assert (Hwf1 : wfStore st1).
    { apply (evolves_wfStore this st); [|done].
      apply (getService_evolves fuel this key). by rewrite Hrun. }
    destruct (endScope_wf _ _ _ Hwf1 Hend) as (_ & _ & _ & Hobj).
    rewrite Hobj in Hl. split; [eauto|]. intros Hv. by apply (fresh_differs st1).
Qed.

(** C5 as it is stated fails when the child is given the parent's own
    context object: the root resolves 'Request' to the object 14, and the
    first [getService] of its child made by [createScope(context0)]
    returns that same object 14 without any call of a factory. *)
Lemma transient_shared_with_child_on_same_context :
  let '(root, st0) := demoRoot in
  exists st1 st3,
    getService 4 root "Request" st0 = Returns (VObject 14) st1
    /\ getService 4 (createScope root 0 st1).1 "Request" (createScope root 0 st1).2
       = Returns (VObject 14) st3
    /\ trace st3 = trace st1.
Proof.
  vm_compute. do 2 eexists. split; [reflexivity|]. split; vm_compute; reflexivity.
Qed.

(** ** Scopes over one context object *)

(** An OnDemand resolution pushes the handle of what it returns at the
    end of the on-demand array of the context. *)
Lemma getService_onDemand_pushed fuel this key d st v st' :
  map_get key (registry this) = Some d ->
  scope d = OnDemand ->
  getService fuel this key st = Returns v st' ->
  exists data front h,
    slots st' !! injectorScope this = Some data
    /\ onDemandServices data = front ++ [h]
    /\ instance h = v /\ handleOnScopeEnd h = onScopeEnd d.
Proof.
  intros Hget Hsc. destruct fuel as [|fuel]; [discriminate|].
  rewrite getService_unfold, Hget. simpl. rewrite Hsc. unfold bind.
  destruct (createInstance _ this d st) as [h s1|e s1|] eqn:E; try discriminate.
  destruct (slots s1 !! injectorScope this) as [data|]; [|discriminate].
  intros [= <- <-]. simpl. rewrite lookup_insert_eq.
  destruct (createInstance_calls _ _ _ _ _ _ (getService_evolves fuel this) E)
    as (Hcb & _).
  by exists (mkDependencyData (scopedServices data) (onDemandServices data ++ [h])),
    (onDemandServices data), h.
Qed.

(** C9: the Transient cache and the on-demand array are held by the
    context object.  The constructor leaves the field of a context that
    has one as it is, so [createScope] with the parent's own context gives
    a scope over the same field; and for any two injectors [a] and [b]
    over one context object and one registry (either of the two may be
    taken for [a]): a Transient instance resolved by [a] is what [b] gets,
    with no call of a factory; the handle of an OnDemand resolution by
    [a] is in the array [b] reads; and [endScope] on [b] returns, having
    called the [onScopeEnd] of the handles [a] gathered (and, after them,
    of the SingleInstance handles of [b] when [b] is the main scope, and
    of no other), and leaves [a] with an empty on-demand array and an
    empty Transient cache, so that [a] calls the factory again for a key
    that is not SingleInstance. *)
Theorem context_holds_scope_state a b st :
  injectorScope a = injectorScope b ->
  registry a = registry b ->
  wfStore st ->
  (forall scope' registry' services main,
      is_Some (slots st !! scope') ->
      slots (newInjector scope' registry' services main st).2 = slots st)
  /\ (forall child st1,
         is_Some (slots st !! injectorScope a) ->
         createScope a (injectorScope a) st = (child, st1) ->
         injectorScope child = injectorScope a
         /\ registry child = registry a
         /\ slots st1 = slots st)
  /\ (forall fuel key d v st1,
         map_get key (registry a) = Some d ->
         scope d = Transient ->
         getService fuel a key st = Returns v st1 ->
         forall fuel', getService (S fuel') b key st1 = Returns v st1)
  /\ (forall fuel key d v st1,
         map_get key (registry a) = Some d ->
         scope d = OnDemand ->
         getService fuel a key st = Returns v st1 ->
         exists data front h,
           slots st1 !! injectorScope b = Some data
           /\ onDemandServices data = front ++ [h]
           /\ instance h = v)
  /\ (forall data,
         slots st !! injectorScope a = Some data ->
         exists st1,
           endScope b st = Returns tt st1
           /\ trace st1
              = trace st
                ++ map (scopeEndEvent (injectorScope a))
                     (onDemandServices data
                        ++ map_values (readMap (scopedServices data) st))
                ++ map (scopeEndEvent (injectorScope a))
                     (if isMainScope b
                      then map_values (readMap (singleInstanceServices b) st)
                      else [])
           /\ (exists data',
                  slots st1 !! injectorScope a = Some data'
                  /\ onDemandServices data' = []
                  /\ readMap (scopedServices data') st1 = [])
           /\ forall fuel key d v st2,
               map_get key (registry a) = Some d ->
               scope d <> SingleInstance ->
               getService fuel a key st1 = Returns v st2 ->
               exists more,
                 trace st2
                 = trace st1
                   ++ FactoryCalled (functionRef (factory d))
                        (VObject (injectorScope a))
                   :: more).
Proof.
  intros Hscope Hreg Hwf. split_and!.
  - intros scope' registry' services main [d Hd].
    unfold newInjector. destruct services; simpl; by rewrite Hd.
  - intros child st1 Hb Hcs.
    assert (Hc : child = (createScope a (injectorScope a) st).1) by by rewrite Hcs.
    assert (Hs : st1 = (createScope a (injectorScope a) st).2) by by rewrite Hcs.
    rewrite createScope_child in Hc. rewrite createScope_store_bound in Hs by done.
    by subst child st1.
  - intros fuel key d v st1 Hget Hsc Hrun fuel'.
    by apply (transient_reused fuel a b key key d st).
  - intros fuel key d v st1 Hget Hsc Hrun. rewrite <- Hscope.
    destruct (getService_onDemand_pushed _ _ _ _ _ _ _ Hget Hsc Hrun)
      as (data & front & h & ? & ? & ? & _).
    by exists data, front, h.
  - intros data Hd. rewrite Hscope in Hd.
    pose proof (endScope_store _ _ _ Hd) as Hend.
    eexists. split; [exact Hend|]. rewrite Hscope. simpl. split_and!.
    + unfold servicesToDispose. by rewrite map_app.
    + eexists. rewrite lookup_insert_eq. split_and!; try done.
      unfold readMap. simpl. by rewrite list_lookup_middle.
    + intros fuel key d v st2 Hget Hsc Hrun.
      assert (Hun : uncached a d
                (mkStore (objects st) (maps st ++ [[]])
                   (<[injectorScope b := mkDependencyData (length (maps st)) []]>
                      (slots st))
                   (trace st
                      ++ map (scopeEndEvent (injectorScope b))
                           (servicesToDispose b data st)))).
      { pose proof (endScope_uncached _ _ _ d Hend Hsc) as Hb.
        unfold uncached in *. rewrite Hscope, Hreg.
        by destruct (scope d). }
      destruct (getService_creates _ _ _ _ _ _ _ Hget Hun Hrun) as [Ht _].
      by rewrite Hscope in Ht.
Qed.

(** ** Registries made by the builder have one entry per key *)

Lemma map_set_keys {V} k (v : V) (m : JsMap V) :
  map_keys (map_set k v m)
  = if existsb (String.eqb k) (map_keys m) then map_keys m else map_keys m ++ [k].
Proof.
  unfold map_keys. induction m as [|[k0 x] m IH]; simpl; [done|].
  rewrite (String.eqb_sym k k0).
  destruct (String.eqb k0 k) eqn:E; simpl.
  - apply String.eqb_eq in E. by subst.
  - rewrite IH. by destruct (existsb _ _).
Qed.

Lemma map_set_NoDup {V} k (v : V) (m : JsMap V) :
  NoDup (map_keys m) -> NoDup (map_keys (map_set k v m)).
Proof.
  intros Hnd. rewrite map_set_keys.
  destruct (existsb (String.eqb k) (map_keys m)) eqn:E; [done|].
  apply NoDup_app. split_and!; [done| |apply NoDup_singleton].
  intros x Hx Hk. apply list_elem_of_singleton in Hk. subst x.
  assert (existsb (String.eqb k) (map_keys m) = true); [|congruence].
  apply existsb_exists. exists k.
  split; [by apply list_elem_of_In|apply String.eqb_refl].
Qed.

Lemma add_NoDup ref keys f lifetime callback this :
  NoDup (map_keys (builderRegistry this)) ->
  NoDup (map_keys (build (add ref keys f lifetime callback this))).
Proof.
  unfold build, add. simpl. generalize (builderRegistry this).
  induction keys as [|k keys IH]; intros m Hnd; simpl; [done|].
  apply IH. by apply map_set_NoDup.
Qed.

Lemma demoRegistry_NoDup : NoDup (map_keys demoRegistry).
Proof.
  unfold demoRegistry, addType. repeat apply add_NoDup. apply NoDup_nil_2.
Qed.

(** ** Aliases *)

Lemma allEquivalentServices_In (registry : Registry) d k :
  In k (allEquivalentServices registry d) <->
  exists d', In (k, d') registry
             /\ functionRef (factory d') = functionRef (factory d).
Proof.
  unfold allEquivalentServices, map_entries. rewrite in_map_iff. split.
  - intros ([k' d'] & <- & Hin). apply list_elem_of_In, list_elem_of_filter in Hin.
    destruct Hin as [Hsame Hin]. exists d'. split; [by apply list_elem_of_In|].
    simpl in Hsame. apply Is_true_true in Hsame. by apply Nat.eqb_eq in Hsame.
  - intros (d' & Hin & Href). exists (k, d'). split; [done|].
    apply list_elem_of_In, list_elem_of_filter. split; [|by apply list_elem_of_In].
    simpl. apply Is_true_true. by apply Nat.eqb_eq.
Qed.

Lemma map_get_unique {V} (m : JsMap V) k v v' :
  NoDup (map_keys m) -> In (k, v) m -> map_get k m = Some v' -> v = v'.
Proof.
  unfold map_keys. induction m as [|[k0 x] m IH]; simpl; [done|].
  intros Hnd [Hin|Hin].
  - injection Hin as -> ->. rewrite String.eqb_refl. congruence.
  - apply NoDup_cons in Hnd as [Hk Hnd].
    destruct (String.eqb k0 k) eqn:E; [|by apply IH].
    apply String.eqb_eq in E. subst k0. exfalso. apply Hk.
    apply list_elem_of_In, in_map_iff. by exists (k, v).
Qed.

(** A resolution that had to create stored the handle under the first of
    the alias keys. *)
Lemma getOrCreate_stores keys create l st h st' :
  l < length (maps st') ->
  findService keys (readMap l st) = None ->
  getOrCreate keys create l st = Returns h st' ->
  forall key0 rest, keys = key0 :: rest -> map_get key0 (readMap l st') = Some h.
Proof.
  intros Hl Hf. unfold getOrCreate, bind. rewrite Hf.
  destruct (create st) as [h1 s1|e s1|]; try discriminate.
  intros Hrun key0 rest ->. injection Hrun as <- <-.
  unfold writeMap in Hl. simpl in Hl. rewrite length_insert in Hl.
  rewrite readMap_writeMap_eq by done. apply map_get_set_eq.
Qed.

(** C6, as the code has it.  The engine decides aliases by the identity
    of the stored descriptor: the alias keys of a resolved key are the
    keys of the registry whose descriptor is that very object, whatever
    the fields of the others; a handle found under any of them is
    returned, a new handle is stored under the first of them; so two keys
    registered together, SingleInstance or Transient, resolve to the same
    instance on a scope.  The validator decides by the identity of the
    factory function held by the descriptor: the keys it marks as visited
    are the keys whose descriptor holds that very function. *)
Theorem aliases_by_identity fuel this key key' d st v st1 :
  wfStore st ->
  singleInstanceServices this < length (maps st) ->
  map_get key (registry this) = Some d ->
  map_get key' (registry this) = Some d ->
  scope d <> OnDemand ->
  getService fuel this key st = Returns v st1 ->
  (forall k, In k (aliasKeys (registry this) d) <->
             exists d', In (k, d') (registry this) /\ configRef d' = configRef d)
  /\ (forall k d',
         NoDup (map_keys (registry this)) ->
         map_get k (registry this) = Some d' ->
         configRef d' <> configRef d ->
         ~ In k (aliasKeys (registry this) d))
  /\ (exists key0 rest l h,
         aliasKeys (registry this) d = key0 :: rest
         /\ cacheFor this d st1 = Some l
         /\ findService (key0 :: rest) (readMap l st1) = Some h
         /\ instance h = v
         /\ (uncached this d st -> map_get key0 (readMap l st1) = Some h))
  /\ (forall fuel', getService (S fuel') this key' st1 = Returns v st1)
  /\ (forall (registry' : Registry) serviceRegistry k,
         In k (allEquivalentServices registry' serviceRegistry) <->
         exists d', In (k, d') registry'
                    /\ functionRef (factory d')
                       = functionRef (factory serviceRegistry)).
Proof.
  intros Hwf Hl Hget Hget' Hsc Hrun.
  assert (Hev : evolves this st st1)
    by (apply (getService_evolves fuel this key); by rewrite Hrun).
  split_and!.
  - intros k. apply aliasKeys_In.
  - intros k d' Hnd Hk Href Hin. apply aliasKeys_In in Hin as (d'' & Hin & Heq).
    rewrite (map_get_unique _ _ _ _ Hnd Hin Hk) in Heq. done.
  - destruct (aliasKeys_head _ _ _ Hget) as (key0 & rest & Hk).
    unfold cacheFor. destruct (scope d) eqn:Hs; [done| |].
    + destruct (getService_singleInstance_cached _ _ _ _ _ _ _ Hget Hs Hl Hrun)
        as (h & Hf & Hv).
      exists key0, rest, (singleInstanceServices this), h. rewrite <- Hk.
      split_and!; try done.
      intros Hun. unfold uncached in Hun. rewrite Hs in Hun.
      destruct fuel as [|fuel]; [discriminate|].
      rewrite getService_unfold, Hget in Hrun. simpl in Hrun. rewrite Hs in Hrun.
      unfold bind at 1 in Hrun.
      destruct (getOrCreate _ _ _ st) as [h' s1|e s1|] eqn:E; try discriminate.
      injection Hrun as <- <-.
      assert (h' = h) as ->.
      { rewrite Hk in *.
        pose proof (getOrCreate_cached this _ d key0 rest _ st h' s1
                      (getService_evolves fuel this) Hl E). congruence. }
      eapply getOrCreate_stores; eauto. by rewrite (ev_length _ _ _ Hev).
    + destruct (getService_transient_cached _ _ _ _ _ _ _ Hget Hs Hwf Hrun)
        as (data & h & Hd & Hf & Hv).
      exists key0, rest, (scopedServices data), h. rewrite <- Hk, Hd.
      split_and!; try done.
      intros Hun. unfold uncached in Hun. rewrite Hs in Hun.
      destruct fuel as [|fuel]; [discriminate|].
      rewrite getService_unfold, Hget in Hrun. simpl in Hrun. rewrite Hs in Hrun.
      destruct (slots st !! injectorScope this) as [data0|] eqn:Hd0; [|discriminate].
      unfold bind at 1 in Hrun.
      destruct (getOrCreate _ _ _ st) as [h' s1|e s1|] eqn:E; try discriminate.
      injection Hrun as <- <-.
      pose proof (ev_slot _ _ _ Hev) as Hslot. rewrite Hd0, Hd in Hslot.
      destruct Hslot as [more [= ->]]. simpl in *.
      assert (h' = h) as ->.
      { rewrite Hk in *.
        pose proof (getOrCreate_cached this _ d key0 rest _ st h' s1
                      (getService_evolves fuel this) (Hwf _ _ Hd0) E). congruence. }
      eapply getOrCreate_stores; eauto.
      rewrite (ev_length _ _ _ Hev). exact (Hwf _ _ Hd0).
  - destruct (scope d) eqn:Hs; [done| |].
    + by apply (singleInstance_reused fuel this key key' d st).
    + by apply (transient_reused fuel this this key key' d st).
  - intros registry' serviceRegistry k. apply allEquivalentServices_In.
Qed.

(** C6 as it is stated fails for the validator: 'A' and 'B' are
    registered by two calls of [add] with the same function, so their
    descriptors are two objects with the same fields, and the engine does
    not alias them (it resolves them to the two objects 9 and 10), but the
    validator takes 'B' for 'A' and reports a circular dependency for a
    service that depends on both. *)
Lemma validator_aliases_by_factory :
  exists dA dB,
    map_get "A" twiceRegistry = Some dA
    /\ map_get "B" twiceRegistry = Some dB
    /\ sameConfiguration dA dB = false
    /\ (scope dA, factory dA, onScopeEnd dA) = (scope dB, factory dB, onScopeEnd dB)
    /\ aliasKeys twiceRegistry dA = ["A"]
    /\ allEquivalentServices twiceRegistry dA = ["A"; "B"]
    /\ validateRegistry 3 twiceRegistry
       = Some ["Root Service with key R has a circular dependency with B."]
    /\ exists st1 st2,
        getService 2 twiceRoot.1 "A" twiceRoot.2 = Returns (VObject 9) st1
        /\ getService 2 twiceRoot.1 "B" st1 = Returns (VObject 10) st2.
Proof.
  do 2 eexists. split_and!; try reflexivity.
  vm_compute. do 2 eexists. split; reflexivity.
Qed.

(** ** The validator *)

Lemma mockRegistry_unfold fuel key parentScope (registry : Registry) dependencyKey s :
  mockRegistry (S fuel) key parentScope registry dependencyKey s =
  match map_get dependencyKey registry with
  | None => Returns VUndefined (pushError (missingMessage key dependencyKey) s)
  | Some serviceRegistry =>
      if set_has dependencyKey (visitedServices s) then
        Returns VUndefined (pushError (circularMessage key dependencyKey) s)
      else if scopeLt parentScope (scope serviceRegistry) then
        Returns VUndefined
          (pushError
             (scopeMessage key (scopeName parentScope) dependencyKey
                (scopeName (scope serviceRegistry))) s)
      else
        _ <- runFactory passConstruct (mockRegistry fuel key parentScope registry)
               (call (factory serviceRegistry) createDynamicContext)
               (fold_left addVisited
                  (allEquivalentServices registry serviceRegistry) s) ;;
        fun s'' => Returns VUndefined s''
  end.
Proof. reflexivity. Qed.

(** C7: on a registry of the single service 'CircularService' whose
    factory resolves 'CircularService', whatever its lifetime,
    [validateRegistry] returns the one line of the unit test.  The
    resolver of a pass answers a registered key that is already visited
    with that line and nothing else (one step of fuel is enough: no
    factory is run); a pass starts with nothing visited, so the first
    request of the root key is not answered at once (it needs fuel to run
    the root's factory once more), and it is the request made by that run
    that is flagged: one line, the key visited, and two objects
    constructed in the pass, one by each run of the factory. *)
Theorem validateRegistry_direct_cycle fuel ref fref lifetime callback :
  validateRegistry (S (S fuel))
    (build
       (addType ref fref ["CircularService"] ["CircularService"] lifetime callback
          newBuilder))
  = Some ["Root Service with key CircularService has a circular dependency with CircularService."]
  /\ validateRegistry (S (S fuel)) circularRegistry
     = Some ["Root Service with key CircularService has a circular dependency with CircularService."]
  /\ (forall key parentScope (registry : Registry) dependencyKey serviceRegistry s,
         map_get dependencyKey registry = Some serviceRegistry ->
         set_has dependencyKey (visitedServices s) = true ->
         mockRegistry (S fuel) key parentScope registry dependencyKey s
         = Returns VUndefined
             (pushError
                ("Root Service with key " +:+ key
                   +:+ " has a circular dependency with " +:+ dependencyKey +:+ ".")
                s))
  /\ map_get "CircularService" circularRegistry = Some circularService
  /\ mockRegistry 1 "CircularService" (scope circularService) circularRegistry
       "CircularService" (mkPass [] [] 0)
     = OutOfFuel
  /\ runFactory passConstruct
       (mockRegistry (S (S fuel)) "CircularService" (scope circularService)
          circularRegistry)
       (call (factory circularService) createDynamicContext)
       (mkPass [] [] 0)
     = Returns (VObject 1)
         (mkPass
            ["Root Service with key CircularService has a circular dependency with CircularService."]
            ["CircularService"] 2).
Proof.
  split_and!; try reflexivity.
  - destruct lifetime; cbn; unfold sameFunction; cbn; rewrite Nat.eqb_refl;
      reflexivity.
  - intros key parentScope registry dependencyKey serviceRegistry s Hget Hvisited.
    by rewrite mockRegistry_unfold, Hget, Hvisited.
Qed.


(** ** The properties at work on [demoRegistry] *)

Lemma initialStore_wf n : wfStore (initialStore n).
Proof. intros c d. unfold initialStore. simpl. by rewrite lookup_empty. Qed.

Lemma demoRoot_wf : wfStore demoRoot.2 /\ wfInjector demoRoot.1 demoRoot.2.
Proof.
  destruct (newInjector_wf 0 demoRegistry (initialStore 11) demoRoot.1 demoRoot.2
              (initialStore_wf 11) eq_refl) as (? & ? & _).
  done.
Qed.

Lemma demoResolved_run :
  getService 4 demoRoot.1 "Request" demoRoot.2 = Returns (VObject 14) demoResolved.
Proof. vm_compute. reflexivity. Qed.

Lemma demoResolved_wf : wfStore demoResolved /\ wfInjector demoRoot.1 demoResolved.
Proof.
  destruct demoRoot_wf as [Hs Hi].
  assert (Hev : evolves demoRoot.1 demoRoot.2 demoResolved).
  { apply (getService_evolves 4 _ "Request"). by rewrite demoResolved_run. }
  split.
  - by apply (evolves_wfStore _ _ _ Hev).
  - by apply (evolves_wfInjector _ _ _ _ Hev).
Qed.

Lemma requestService_constructs context :
  constructs (call (factory requestService) context).
Proof.
  simpl. apply constructs_get. intros v1. apply constructs_get. intros v2.
  apply constructs_new.
Qed.

(** On [demoRegistry], which has no key 'Missing'. *)
Lemma getService_unregistered_witness :
  map_get "Missing" (registry demoRoot.1) = None
  /\ getService 1 demoRoot.1 "Missing" demoResolved
     = Throws (Error "There's no type registered to the key Missing.") demoResolved.
Proof.
  split; [reflexivity|].
  exact (proj1 (getService_unregistered 0 demoRoot.1 "Missing" demoResolved eq_refl)).
Defined.

(** On the root of [demoRegistry] after 'Request' was resolved: the child
    gets the handle of 'Cache', and keeps just that whatever the root
    resolves afterwards. *)
Lemma createScope_snapshot_witness :
  wfStore demoResolved
  /\ wfInjector demoRoot.1 demoResolved
  /\ createScope demoRoot.1 1 demoResolved = (demoChild.1, demoChild.2)
  /\ isMainScope demoChild.1 = false
  /\ readMap (singleInstanceServices demoChild.1) demoChild.2
     = [("Cache", mkHandle (VObject 12) 7)]
  /\ forall fuel key s',
      finalState (getService fuel demoRoot.1 key demoChild.2) = Some s' ->
      readMap (singleInstanceServices demoChild.1) s'
      = [("Cache", mkHandle (VObject 12) 7)].
Proof.
  destruct demoResolved_wf as [Hs Hi].
  assert (Hcs : createScope demoRoot.1 1 demoResolved = (demoChild.1, demoChild.2))
    by reflexivity.
  destruct (createScope_snapshot demoRoot.1 1 demoResolved demoChild.1 demoChild.2
              Hs Hi Hcs)
    as (Hmain & _ & _ & _ & Hcopy & _ & _ & _ & Hchild & Hframe & _).
  split_and!; try done.
  intros fuel key s' Hrun. by destruct (Hframe _ _ _ _ Hchild Hrun) as [-> _].
Defined.

(** On the same store: the two 'Option' handles, then 'Request', then,
    the root being the main scope, 'Cache'. *)
Lemma endScope_disposes_witness :
  slots demoResolved !! injectorScope demoRoot.1 = Some demoData
  /\ exists st',
      endScope demoRoot.1 demoResolved = Returns tt st'
      /\ trace st'
         = trace demoResolved
           ++ [ScopeEndCalled 4 (VObject 11) (VObject 0);
               ScopeEndCalled 4 (VObject 13) (VObject 0);
               ScopeEndCalled 10 (VObject 14) (VObject 0);
               ScopeEndCalled 7 (VObject 12) (VObject 0)].
Proof.
  assert (Hd : slots demoResolved !! injectorScope demoRoot.1 = Some demoData)
    by (vm_compute; reflexivity).
  split; [done|].
  destruct (endScope_disposes demoRoot.1 demoResolved demoData Hd)
    as (st' & Hend & Htrace & _).
  exists st'. split; [done|]. by rewrite Htrace.
Defined.

(** On the root of [demoRegistry]: 'Cache' is still the object 12 after
    [endScope]. *)
Lemma endScope_keeps_singleInstances_witness :
  singleInstanceServices demoRoot.1 < length (maps demoRoot.2)
  /\ map_get "Cache" (registry demoRoot.1) = Some cacheService
  /\ scope cacheService = SingleInstance
  /\ exists st1 st2,
      getService 3 demoRoot.1 "Cache" demoRoot.2 = Returns (VObject 12) st1
      /\ endScope demoRoot.1 st1 = Returns tt st2
      /\ getService 1 demoRoot.1 "Cache" st2 = Returns (VObject 12) st2.
Proof.
  assert (Hl : singleInstanceServices demoRoot.1 < length (maps demoRoot.2))
    by (vm_compute; lia).
  split_and!; try done.
  destruct (getService 3 demoRoot.1 "Cache" demoRoot.2) as [v st1| |] eqn:Hrun;
    try (vm_compute in Hrun; discriminate).
  assert (v = VObject 12) as -> by (vm_compute in Hrun; congruence).
  destruct (endScope_returns demoRoot.1 st1) as [st2 Hend].
  { apply (evolves_slot_bound demoRoot.1 demoRoot.2).
    - apply (getService_evolves 3 _ "Cache"). by rewrite Hrun.
    - apply demoRoot_wf. }
  exists st1, st2. split_and!; try done.
  by destruct (endScope_keeps_singleInstances 3 demoRoot.1 "Cache" cacheService
                 demoRoot.2 (VObject 12) st1 st2 Hl eq_refl eq_refl Hrun Hend)
    as (_ & Hagain & _).
Defined.

(** On the root of [demoRegistry]: 'Request' is the object 14 twice; the
    child over the context 1 and the root after [endScope] both get the
    new object 16. *)
Lemma transient_per_context_witness :
  wfStore demoRoot.2
  /\ map_get "Request" (registry demoRoot.1) = Some requestService
  /\ scope requestService = Transient
  /\ getService 4 demoRoot.1 "Request" demoRoot.2 = Returns (VObject 14) demoResolved
  /\ getService 1 demoRoot.1 "Request" demoResolved = Returns (VObject 14) demoResolved
  /\ (exists st3,
         getService 4 demoChild.1 "Request" demoChild.2 = Returns (VObject 16) st3
         /\ VObject 16 <> VObject 14)
  /\ (exists st2 st3,
         endScope demoRoot.1 demoResolved = Returns tt st2
         /\ getService 4 demoRoot.1 "Request" st2 = Returns (VObject 16) st3
         /\ VObject 16 <> VObject 14).
Proof.
  destruct demoRoot_wf as [Hs _].
  destruct (transient_per_context 4 demoRoot.1 "Request" requestService demoRoot.2
              (VObject 14) demoResolved Hs eq_refl eq_refl demoResolved_run)
    as (Hagain & Hchild & Hend).
  assert (Hexists : existsIn demoResolved (VObject 14)) by (vm_compute; lia).
  split_and!; try done.
  - destruct (Hchild 1 demoChild.1 demoChild.2 eq_refl) as [Hun Hcreates].
    assert (Hnone : slots demoResolved !! 1 = None) by (vm_compute; reflexivity).
    destruct (getService 4 demoChild.1 "Request" demoChild.2) as [v' st3| |] eqn:Hrun;
      try (vm_compute in Hrun; discriminate).
    assert (v' = VObject 16) as -> by (vm_compute in Hrun; congruence).
    exists st3. split; [done|].
    destruct (Hcreates 4 (VObject 16) st3 (Hun Hnone) Hrun) as (_ & Hnew).
    by apply (Hnew (requestService_constructs _)).
  - destruct (endScope_returns demoRoot.1 demoResolved) as [st2 Hend2];
      [apply demoResolved_wf|].
    destruct (getService 4 demoRoot.1 "Request" st2) as [v' st3| |] eqn:Hrun.
    + destruct (Hend st2 4 v' st3 Hend2 Hrun) as (_ & Hnew).
      destruct (Hnew (requestService_constructs _)) as (_ & Hne).
      assert (v' = VObject 16) as ->.
      { assert (Hst2 : st2 = match endScope demoRoot.1 demoResolved with
                             | Returns _ s => s | _ => demoResolved end)
          by (by rewrite Hend2).
        rewrite Hst2 in Hrun. vm_compute in Hrun. congruence. }
      exists st2, st3. split_and!; auto.
    + exfalso.
      assert (Hst2 : st2 = match endScope demoRoot.1 demoResolved with
                           | Returns _ s => s | _ => demoResolved end)
        by (by rewrite Hend2).
      rewrite Hst2 in Hrun. vm_compute in Hrun. discriminate.
    + exfalso.
      assert (Hst2 : st2 = match endScope demoRoot.1 demoResolved with
                           | Returns _ s => s | _ => demoResolved end)
        by (by rewrite Hend2).
      rewrite Hst2 in Hrun. vm_compute in Hrun. discriminate.
Defined.

(** On the root of [demoRegistry]: 'Cache' and 'Store' were registered
    together, 'Request' apart. *)
Lemma aliases_by_identity_witness :
  wfStore demoRoot.2
  /\ singleInstanceServices demoRoot.1 < length (maps demoRoot.2)
  /\ map_get "Cache" (registry demoRoot.1) = Some cacheService
  /\ map_get "Store" (registry demoRoot.1) = Some cacheService
  /\ scope cacheService <> OnDemand
  /\ exists st1,
      getService 3 demoRoot.1 "Cache" demoRoot.2 = Returns (VObject 12) st1
      /\ aliasKeys (registry demoRoot.1) cacheService = ["Cache"; "Store"]
      /\ ~ In "Request" (aliasKeys (registry demoRoot.1) cacheService)
      /\ getService 1 demoRoot.1 "Store" st1 = Returns (VObject 12) st1.
Proof.
  destruct demoRoot_wf as [Hs _].
  assert (Hl : singleInstanceServices demoRoot.1 < length (maps demoRoot.2))
    by (vm_compute; lia).
  assert (Hsc : scope cacheService <> OnDemand) by done.
  split_and!; try done.
  destruct (getService 3 demoRoot.1 "Cache" demoRoot.2) as [v st1| |] eqn:Hrun;
    try (vm_compute in Hrun; discriminate).
  assert (v = VObject 12) as -> by (vm_compute in Hrun; congruence).
  destruct (aliases_by_identity 3 demoRoot.1 "Cache" "Store" cacheService
              demoRoot.2 (VObject 12) st1 Hs Hl eq_refl eq_refl Hsc Hrun)
    as (_ & Hapart & _ & Hagain & _).
  exists st1. split_and!; try done.
  apply (Hapart "Request" requestService demoRegistry_NoDup eq_refl). simpl. lia.
Defined.


(** On the root of [demoRegistry] and its child over the same context,
    made before anything is resolved.  The root resolves 'Request' (the
    object 14, with the instances 11 and 13 of 'Option' on demand); the
    child gets the same object; [endScope] on the child then disposes of
    the three handles the root gathered, and of nothing else, and empties
    the field, after which the root builds another 'Request'.  Had the
    root ended its scope instead, the field the child reads would have
    been emptied as well. *)
Lemma context_holds_scope_state_witness :
  injectorScope demoRoot.1 = injectorScope sameContextChild.1
  /\ registry demoRoot.1 = registry sameContextChild.1
  /\ wfStore sameContextChild.2
  /\ wfStore sharedResolved
  /\ getService 4 demoRoot.1 "Request" sameContextChild.2
     = Returns (VObject 14) sharedResolved
  /\ getService 1 sameContextChild.1 "Request" sharedResolved
     = Returns (VObject 14) sharedResolved
  /\ slots sharedResolved !! 0 = Some demoData
  /\ endScope sameContextChild.1 sharedResolved = Returns tt sharedEnded
  /\ trace sharedEnded
     = trace sharedResolved
       ++ [ScopeEndCalled 4 (VObject 11) (VObject 0);
           ScopeEndCalled 4 (VObject 13) (VObject 0);
           ScopeEndCalled 10 (VObject 14) (VObject 0)]
  /\ (exists data',
         slots sharedEnded !! injectorScope demoRoot.1 = Some data'
         /\ onDemandServices data' = []
         /\ readMap (scopedServices data') sharedEnded = [])
  /\ (exists st2 more,
         getService 4 demoRoot.1 "Request" sharedEnded = Returns (VObject 16) st2
         /\ trace st2 = trace sharedEnded ++ FactoryCalled 9 (VObject 0) :: more)
  /\ exists st',
      endScope demoRoot.1 sharedResolved = Returns tt st'
      /\ trace st'
         = trace sharedResolved
           ++ [ScopeEndCalled 4 (VObject 11) (VObject 0);
               ScopeEndCalled 4 (VObject 13) (VObject 0);
               ScopeEndCalled 10 (VObject 14) (VObject 0);
               ScopeEndCalled 7 (VObject 12) (VObject 0)]
      /\ exists data',
          slots st' !! injectorScope sameContextChild.1 = Some data'
          /\ onDemandServices data' = []
          /\ readMap (scopedServices data') st' = [].
Proof.
  assert (Hwf : wfStore sameContextChild.2).
  { destruct demoRoot_wf as [Hs Hi].
    by destruct (createScope_wf demoRoot.1 0 demoRoot.2 sameContextChild.1
                   sameContextChild.2 Hs Hi eq_refl) as (? & _). }
  assert (Hrun : getService 4 demoRoot.1 "Request" sameContextChild.2
                 = Returns (VObject 14) sharedResolved) by by vm_compute.
  assert (Hwf1 : wfStore sharedResolved).
  { apply (evolves_wfStore demoRoot.1 sameContextChild.2); [|done].
    apply (getService_evolves 4 demoRoot.1 "Request" sameContextChild.2).
    by rewrite Hrun. }
  assert (Hd : slots sharedResolved !! injectorScope demoRoot.1 = Some demoData)
    by by vm_compute.
  destruct (context_holds_scope_state demoRoot.1 sameContextChild.1
              sameContextChild.2 eq_refl eq_refl Hwf)
    as (_ & _ & Hshared & _).
  destruct (context_holds_scope_state demoRoot.1 sameContextChild.1
              sharedResolved eq_refl eq_refl Hwf1)
    as (_ & _ & _ & _ & Hended).
  destruct (context_holds_scope_state sameContextChild.1 demoRoot.1
              sharedResolved eq_refl eq_refl Hwf1)
    as (_ & _ & _ & _ & Hother).
  destruct (Hended demoData Hd) as (st1 & Hend & Htrace & Hreset & Hagain).
  destruct (Hother demoData Hd) as (st' & Hend' & Htrace' & Hreset' & _).
  assert (st1 = sharedEnded) as ->.
  { unfold sharedEnded. by rewrite Hend. }
  split; [reflexivity|]. split; [reflexivity|]. split; [exact Hwf|].
  split; [exact Hwf1|]. split; [exact Hrun|].
  split.
  { exact (Hshared 4 "Request" requestService (VObject 14) sharedResolved
             eq_refl eq_refl Hrun 0). }
  split; [exact Hd|]. split; [exact Hend|].
  split; [exact Htrace|]. split; [exact Hreset|].
  split.
  - destruct (getService 4 demoRoot.1 "Request" sharedEnded)
      as [v st2| |] eqn:Hrun2; try (vm_compute in Hrun2; discriminate).
    assert (v = VObject 16) as -> by (vm_compute in Hrun2; congruence).
    destruct (Hagain 4 "Request" requestService (VObject 16) st2 eq_refl
                ltac:(discriminate) Hrun2) as [more Hmore].
    exists st2, more. split; [done|exact Hmore].
  - exists st'. split; [exact Hend'|]. split; [exact Htrace'|exact Hreset'].
Defined.

(** ** The builder *)

Lemma existsb_eqb_In k (keys : list string) :
  existsb (String.eqb k) keys = true <-> In k keys.
Proof.
  rewrite existsb_exists. split.
  - intros (x & Hx & E). apply String.eqb_eq in E. by subst.
  - intros Hk. exists k. split; [done|apply String.eqb_refl].
Qed.

Lemma existsb_eqb_not_In k (keys : list string) :
  existsb (String.eqb k) keys = false <-> ~ In k keys.
Proof.
  rewrite <- existsb_eqb_In. by destruct (existsb _ _).
Qed.

Lemma fold_map_set_get {V} (v : V) keys :
  forall (m : JsMap V) k,
    map_get k (fold_left (fun r c => map_set c v r) keys m)
    = if existsb (String.eqb k) keys then Some v else map_get k m.
Proof.
  induction keys as [|c keys IH]; intros m k; simpl; [done|].
  rewrite IH. destruct (existsb (String.eqb k) keys); [by rewrite orb_true_r|].
  rewrite orb_false_r. destruct (String.eqb k c) eqn:E.
  - apply String.eqb_eq in E. subst. apply map_get_set_eq.
  - apply map_get_set_ne. intros ->. by rewrite String.eqb_refl in E.
Qed.

Lemma map_set_In {V} k (v : V) (m : JsMap V) k' v' :
  In (k', v') (map_set k v m) -> (k' = k /\ v' = v) \/ In (k', v') m.
Proof.
  induction m as [|[k0 x] m IH]; simpl.
  - intros [[= <- <-]|[]]. by left.
  - destruct (String.eqb k0 k) eqn:E; simpl.
    + apply String.eqb_eq in E. subst k0. intros [[= <- <-]|Hin]; auto.
    + intros [Hin|Hin]; [auto|]. destruct (IH Hin); auto.
Qed.

Lemma fold_map_set_In {V} (v : V) keys :
  forall (m : JsMap V) k' v',
    In (k', v') (fold_left (fun r c => map_set c v r) keys m) ->
    (In k' keys /\ v' = v) \/ In (k', v') m.
Proof.
  induction keys as [|c keys IH]; intros m k' v'; simpl; [auto|].
  intros Hin. destruct (IH _ _ _ Hin) as [[Hk ->]|Hin']; [auto|].
  destruct (map_set_In _ _ _ _ _ Hin') as [[-> ->]|?]; auto.
Qed.

(** X1: after [add], a key among those given resolves in the registry
    to the new descriptor, and any other key to what it resolved to
    before. *)
Theorem add_lookup ref keys functionConfig lifetime callback this k :
  map_get k (build (add ref keys functionConfig lifetime callback this))
  = if existsb (String.eqb k) keys
    then Some (mkConfiguration ref lifetime functionConfig callback)
    else map_get k (build this).
Proof. unfold build, add. simpl. apply fold_map_set_get. Qed.

(** X2: when the descriptor [add] makes is a new object, the alias keys
    the engine computes for it in the built registry are exactly the keys
    given to that call of [add]. *)
Theorem add_aliasKeys ref keys functionConfig lifetime callback this :
  (forall k d, In (k, d) (build this) -> configRef d <> ref) ->
  forall k,
    In k (aliasKeys (build (add ref keys functionConfig lifetime callback this))
            (mkConfiguration ref lifetime functionConfig callback))
    <-> In k keys.
Proof.
  intros Hfresh k. rewrite aliasKeys_In. split.
  - intros (d' & Hin & Href). unfold build, add in Hin. simpl in Hin.
    destruct (fold_map_set_In _ _ _ _ _ Hin) as [[Hk _]|Hold]; [done|].
    destruct (Hfresh _ _ Hold). done.
  - intros Hk. eexists. split; [|reflexivity].
    apply map_get_In. unfold build, add. simpl. rewrite fold_map_set_get.
    apply existsb_eqb_In in Hk. by rewrite Hk.
Qed.

Lemma fold_map_set_keys {V} (v : V) keys :
  forall (m : JsMap V),
    exists more,
      map_keys (fold_left (fun r c => map_set c v r) keys m) = map_keys m ++ more
      /\ NoDup more
      /\ forall k, In k more <-> In k keys /\ ~ In k (map_keys m).
Proof.
  induction keys as [|c keys IH]; intros m; simpl.
  - exists []. rewrite app_nil_r. split_and!; [done|constructor|].
    intros k. simpl. tauto.
  - destruct (IH (map_set c v m)) as (more & Hkeys & Hnd & Hmore).
    rewrite map_set_keys in Hkeys, Hmore.
    destruct (existsb (String.eqb c) (map_keys m)) eqn:E.
    + exists more. split_and!; [done..|]. intros k. rewrite Hmore.
      apply existsb_eqb_In in E. split.
      * intros [? ?]. auto.
      * intros [[<-|?] ?]; [contradiction|auto].
    + apply existsb_eqb_not_In in E.
      exists (c :: more). rewrite Hkeys, <- app_assoc. split_and!; [done| |].
      * apply NoDup_cons. split; [|done].
        rewrite list_elem_of_In, Hmore. rewrite in_app_iff. simpl. tauto.
      * intros k. simpl. rewrite Hmore, in_app_iff. simpl.
        destruct (decide (c = k)) as [->|Hne]; [tauto|].
        split.
        -- intros [?|(? & Hn)]; [done|]. split; [auto|]. intros ?. apply Hn. auto.
        -- intros [[?|?] Hn]; [done|]. right. split; [done|].
           intros [?|[?|[]]]; [by apply Hn|done].
Qed.

(** X3: [add] keeps the keys of the registry where they stand and
    appends the given keys that were not there yet, each once: a registry
    with one entry per key stays so. *)
Theorem add_keys ref keys functionConfig lifetime callback this :
  NoDup (map_keys (build this)) ->
  exists more,
    map_keys (build (add ref keys functionConfig lifetime callback this))
    = map_keys (build this) ++ more
    /\ (forall k, In k more <-> In k keys /\ ~ In k (map_keys (build this)))
    /\ NoDup (map_keys (build (add ref keys functionConfig lifetime callback this))).
Proof.
  intros Hnd. unfold build, add. simpl.
  destruct (fold_map_set_keys (mkConfiguration ref lifetime functionConfig callback)
              keys (builderRegistry this)) as (more & Hkeys & Hndm & Hmore).
  exists more. split_and!; [done..|].
  rewrite Hkeys. apply NoDup_app. split_and!; [done| |done].
  intros k Hk Hk'. apply list_elem_of_In, Hmore in Hk'. apply list_elem_of_In in Hk.
  tauto.
Qed.

(** ** OnDemand *)

Lemma resolveAll_constructs dependencies :
  forall services,
    constructs (resolveAll dependencies services
                  (fun services => Construct services Return)).
Proof.
  induction dependencies as [|t rest IH]; intros services; simpl.
  - apply constructs_new.
  - apply constructs_get. intros v. apply IH.
Qed.

Lemma getService_onDemand_appended fuel this key d st v st' :
  map_get key (registry this) = Some d ->
  scope d = OnDemand ->
  getService fuel this key st = Returns v st' ->
  exists data nested h,
    slots st !! injectorScope this = Some data
    /\ slots st' !! injectorScope this
       = Some (mkDependencyData (scopedServices data)
                 (onDemandServices data ++ nested ++ [h]))
    /\ instance h = v /\ handleOnScopeEnd h = onScopeEnd d.
Proof.
  intros Hget Hsc. destruct fuel as [|fuel]; [discriminate|].
  rewrite getService_unfold, Hget. simpl. rewrite Hsc. unfold bind.
  destruct (createInstance _ this d st) as [h s1|e s1|] eqn:E; try discriminate.
  destruct (slots s1 !! injectorScope this) as [data1|] eqn:Hd1; [|discriminate].
  intros [= <- <-]. simpl. rewrite lookup_insert_eq.
  destruct (createInstance_calls _ _ _ _ _ _ (getService_evolves fuel this) E)
    as (Hcb & _).
  assert (Hev : evolves this st s1).
  { apply (createInstance_evolves this _ (getService_evolves fuel this) d).
    by rewrite E. }
  pose proof (ev_slot _ _ _ Hev) as Hs.
  destruct (slots st !! injectorScope this) as [data|]; [|congruence].
  destruct Hs as [nested Hs]. rewrite Hd1 in Hs. injection Hs as ->. simpl.
  exists data, nested, h. by rewrite <- app_assoc.
Qed.

(** X4: an OnDemand key is never served from a cache.  Two resolutions
    on a scope call the factory twice, push two handles that carry the
    descriptor's callback on the on-demand array in that order, and, the
    factory constructing its result (as every factory [addType] builds
    does), return two different objects. *)
Theorem onDemand_never_reused fuel1 fuel2 this key d st v1 st1 v2 st2 :
  map_get key (registry this) = Some d ->
  scope d = OnDemand ->
  getService fuel1 this key st = Returns v1 st1 ->
  getService fuel2 this key st1 = Returns v2 st2 ->
  (exists more1 more2,
      trace st2
      = trace st
        ++ FactoryCalled (functionRef (factory d)) (VObject (injectorScope this))
        :: more1
        ++ FactoryCalled (functionRef (factory d)) (VObject (injectorScope this))
        :: more2)
  /\ (exists data front h1 between h2,
         slots st2 !! injectorScope this = Some data
         /\ onDemandServices data = front ++ h1 :: between ++ [h2]
         /\ instance h1 = v1 /\ instance h2 = v2
         /\ handleOnScopeEnd h1 = onScopeEnd d
         /\ handleOnScopeEnd h2 = onScopeEnd d)
  /\ (constructs (call (factory d) (VObject (injectorScope this))) -> v1 <> v2)
  /\ (forall dependencies,
         call (factory d) (VObject (injectorScope this))
         = resolveAll dependencies [] (fun services => Construct services Return) ->
         v1 <> v2).
Proof.
  intros Hget Hsc Hrun1 Hrun2.
  assert (Hun : forall s, uncached this d s) by (intros s; unfold uncached; by rewrite Hsc).
  destruct (getService_creates _ _ _ _ _ _ _ Hget (Hun st) Hrun1) as ([m1 Ht1] & Hc1).
  destruct (getService_creates _ _ _ _ _ _ _ Hget (Hun st1) Hrun2) as ([m2 Ht2] & Hc2).
  assert (Hdiff : constructs (call (factory d) (VObject (injectorScope this))) ->
                  v1 <> v2).
  { intros Hc. destruct (Hc1 Hc) as (l1 & -> & _ & Hl1).
    destruct (Hc2 Hc) as (l2 & -> & Hl2 & _). intros [= ->]. lia. }
  split_and!.
  - exists m1, m2. rewrite Ht2, Ht1. by rewrite <- app_assoc.
  - destruct (getService_onDemand_appended _ _ _ _ _ _ _ Hget Hsc Hrun1)
      as (data & nested1 & h1 & Hd & Hd1 & Hv1 & Hcb1).
    destruct (getService_onDemand_appended _ _ _ _ _ _ _ Hget Hsc Hrun2)
      as (data1 & nested2 & h2 & Hd1' & Hd2 & Hv2 & Hcb2).
    rewrite Hd1 in Hd1'. injection Hd1' as <-. simpl in Hd2.
    eexists _, (onDemandServices data ++ nested1), h1, nested2, h2.
    split; [exact Hd2|]. simpl. split_and!; try done.
    by rewrite <- !app_assoc.
  - done.
  - intros dependencies Hbody. apply Hdiff. rewrite Hbody. apply resolveAll_constructs.
Qed.

(** X5: when the first thing the factory of a key asks for is an
    unregistered key, resolving the key (not cached) throws the error
    that names the missing dependency; the factory has been called,
    nothing has been cached and no handle pushed. *)
Theorem getService_missing_dependency fuel this key d m k st :
  map_get key (registry this) = Some d ->
  uncached this d st ->
  is_Some (slots st !! injectorScope this) ->
  call (factory d) (VObject (injectorScope this)) = GetService m k ->
  map_get m (registry this) = None ->
  getService (S (S fuel)) this key st
  = Throws (Error (unregisteredMessage m))
      (record (FactoryCalled (functionRef (factory d)) (VObject (injectorScope this)))
         st).
Proof.
  intros Hget Hun [data Hd] Hbody Hm.
  rewrite getService_unfold, Hget. cbv beta iota zeta.
  assert (Hcreate :
            createInstance (getService (S fuel) this) this d st
            = Throws (Error (unregisteredMessage m))
                (record (FactoryCalled (functionRef (factory d))
                           (VObject (injectorScope this))) st)).
  { unfold createInstance. rewrite Hbody. cbn [runFactory].
    by rewrite getService_unfold, Hm. }
  unfold uncached in Hun. destruct (scope d).
  - by rewrite Hcreate.
  - unfold getOrCreate. by rewrite Hun, Hcreate.
  - rewrite Hd. unfold getOrCreate. by rewrite (Hun _ Hd), Hcreate.
Qed.

(** ** Cached handles stay *)

Lemma keepsHandles_refl st : keepsHandles st st.
Proof. by intros l k h. Qed.

Lemma keepsHandles_trans st1 st2 st3 :
  keepsHandles st1 st2 -> keepsHandles st2 st3 -> keepsHandles st1 st3.
Proof. intros H1 H2 l k h Hk. auto. Qed.

Lemma keepsHandles_same_maps st st' : maps st' = maps st -> keepsHandles st st'.
Proof. intros E l k h. unfold readMap. by rewrite E. Qed.

Lemma findService_None_head key0 rest (m : JsMap ServiceHandle) :
  findService (key0 :: rest) m = None -> map_get key0 m = None.
Proof. simpl. by destruct (map_get key0 m). Qed.

Lemma readMap_writeMap l l' m st :
  readMap l' (writeMap l m st)
  = if decide (l = l' /\ l < length (maps st)) then m else readMap l' st.
Proof.
  unfold readMap, writeMap. simpl. case_decide as H.
  - destruct H as [<- Hl]. by rewrite list_lookup_insert_eq.
  - destruct (decide (l = l')) as [<-|Hne].
    + rewrite list_insert_ge; [done|]. lia.
    + by rewrite list_lookup_insert_ne.
Qed.

Lemma getOrCreate_keepsHandles keys create l st st' :
  (forall s s', finalState (create s) = Some s' -> keepsHandles s s') ->
  finalState (getOrCreate keys create l st) = Some st' ->
  keepsHandles st st'.
Proof.
  intros Hc. unfold getOrCreate, bind.
  destruct (findService keys (readMap l st)) as [h|] eqn:F; simpl.
  { intros [= <-]. apply keepsHandles_refl. }
  destruct (create st) as [h s1|e s1|] eqn:E; simpl; try discriminate.
  - assert (H1 : keepsHandles st s1) by (apply Hc; by rewrite E).
    destruct keys as [|key0 rest]; intros [= <-]; [done|].
    intros l' k h0 Hk. rewrite readMap_writeMap. case_decide as Hl.
    + destruct Hl as [<- _]. rewrite map_get_set_ne; [by apply H1|].
      intros <-. apply findService_None_head in F. congruence.
    + by apply H1.
  - intros [= <-]. apply Hc. by rewrite E.
Qed.

Lemma getService_keepsHandles fuel this :
  forall key st st',
    finalState (getService fuel this key st) = Some st' -> keepsHandles st st'.
Proof.
  induction fuel as [|fuel IH]; intros key st st'; [discriminate|].
  rewrite getService_unfold.
  destruct (map_get key (registry this)) as [d|]; cbv beta iota zeta.
  2: { intros [= <-]. apply keepsHandles_refl. }
  assert (Hcreate : forall s s',
             finalState (createInstance (getService fuel this) this d s) = Some s' ->
             keepsHandles s s').
  { intros s s'. unfold createInstance, bind.
    destruct (runFactory _ _ _ _) as [v s1|e s1|] eqn:E; simpl; try discriminate;
      intros [= <-];
      (assert (H : keepsHandles
                     (record (FactoryCalled (functionRef (factory d))
                                (VObject (injectorScope this))) s) s1);
       [eapply runFactory_respects
          with (construct' := construct) (getter := getService fuel this)
               (f := call (factory d) (VObject (injectorScope this)));
        [apply keepsHandles_refl|apply keepsHandles_trans| |exact IH|by rewrite E];
        intros; by apply keepsHandles_same_maps
       |intros l k h0 Hk; by apply H]). }
  destruct (scope d).
  - unfold bind.
    destruct (createInstance _ this d st) as [h s1|e s1|] eqn:E; simpl;
      try discriminate.
    + assert (H1 : keepsHandles st s1) by (apply Hcreate; by rewrite E).
      destruct (slots s1 !! injectorScope this); simpl; intros [= <-]; [|done].
      eapply keepsHandles_trans; [exact H1|]. by apply keepsHandles_same_maps.
    + intros [= <-]. apply Hcreate. by rewrite E.
  - unfold bind.
    destruct (getOrCreate _ _ _ st) as [h s1|e s1|] eqn:E; simpl; try discriminate.
    + intros [= <-]. eapply getOrCreate_keepsHandles; [exact Hcreate|by rewrite E].
    + intros [= <-]. eapply getOrCreate_keepsHandles; [exact Hcreate|by rewrite E].
  - destruct (slots st !! injectorScope this) as [data|]; simpl.
    2: { intros [= <-]. apply keepsHandles_refl. }
    unfold bind.
    destruct (getOrCreate _ _ _ st) as [h s1|e s1|] eqn:E; simpl; try discriminate.
    + intros [= <-]. eapply getOrCreate_keepsHandles; [exact Hcreate|by rewrite E].
    + intros [= <-]. eapply getOrCreate_keepsHandles; [exact Hcreate|by rewrite E].
Qed.

(** X14: [getService] never removes or replaces a handle that is
    cached: whatever [Map], key and handle, a handle found before the
    call, which may return or throw, is found after it.  So a
    SingleInstance key whose handle sits under the first of its alias keys
    keeps resolving to that instance after any other resolution. *)
Theorem cached_handles_stay fuel this key st st' :
  finalState (getService fuel this key st) = Some st' ->
  (forall l k h,
      map_get k (readMap l st) = Some h -> map_get k (readMap l st') = Some h)
  /\ (forall key' d key0 rest h fuel',
         map_get key' (registry this) = Some d ->
         scope d = SingleInstance ->
         aliasKeys (registry this) d = key0 :: rest ->
         map_get key0 (readMap (singleInstanceServices this) st) = Some h ->
         getService (S fuel') this key' st' = Returns (instance h) st').
Proof.
  intros Hrun. pose proof (getService_keepsHandles _ _ _ _ _ Hrun) as Hkeep.
  split; [exact Hkeep|].
  intros key' d key0 rest h fuel' Hget Hsc Hk Hh.
  apply (getService_singleInstance_hit _ _ _ d); try done.
  rewrite Hk. apply findService_head. by apply Hkeep.
Qed.

(** ** What [endScope] disposes of *)

Lemma findService_key keys (m : JsMap ServiceHandle) h :
  findService keys m = Some h -> exists k, map_get k m = Some h.
Proof.
  induction keys as [|k keys IH]; simpl; [discriminate|].
  destruct (map_get k m) as [h'|] eqn:E; [|done].
  intros [= ->]. eauto.
Qed.

Lemma map_get_values k (m : JsMap ServiceHandle) h :
  map_get k m = Some h -> In h (map_values m).
Proof.
  intros E. apply map_get_In in E. unfold map_values.
  apply in_map_iff. by exists (k, h).
Qed.

(** The handle a SingleInstance or Transient resolution leaves in its
    cache, and a key it is under; it carries the callback of the
    descriptor when the resolution made it. *)
Lemma getService_handle fuel this key d st v st1 :
  wfStore st ->
  singleInstanceServices this < length (maps st) ->
  map_get key (registry this) = Some d ->
  scope d <> OnDemand ->
  getService fuel this key st = Returns v st1 ->
  exists l k h,
    cacheFor this d st1 = Some l
    /\ map_get k (readMap l st1) = Some h
    /\ instance h = v
    /\ (uncached this d st -> handleOnScopeEnd h = onScopeEnd d).
Proof.
  intros Hwf Hl Hget Hsc Hrun.
  assert (Hev : evolves this st st1)
    by (apply (getService_evolves fuel this key); by rewrite Hrun).
  destruct fuel as [|fuel]; [discriminate|].
  rewrite getService_unfold, Hget in Hrun. cbv beta iota zeta in Hrun.
  destruct (aliasKeys_head _ _ _ Hget) as (key0 & rest & Hk).
  unfold cacheFor, uncached. destruct (scope d) eqn:Hs; [done| |].
  - unfold bind at 1 in Hrun.
    destruct (getOrCreate _ _ _ st) as [h s1|e s1|] eqn:E; try discriminate.
    injection Hrun as <- <-.
    assert (Hf : findService (aliasKeys (registry this) d)
                   (readMap (singleInstanceServices this) s1) = Some h).
    { rewrite Hk in *. eapply getOrCreate_cached; eauto using getService_evolves. }
    destruct (findService_key _ _ _ Hf) as [k Hkh].
    exists (singleInstanceServices this), k, h. split_and!; try done.
    intros Hun.
    destruct (getOrCreate_miss _ _ _ _ _ _ Hun E) as (s2 & Hcr & _).
    by destruct (createInstance_calls _ _ _ _ _ _ (getService_evolves fuel this) Hcr).
  - destruct (slots st !! injectorScope this) as [data|] eqn:Hd; [|discriminate].
    unfold bind at 1 in Hrun.
    destruct (getOrCreate _ _ _ st) as [h s1|e s1|] eqn:E; try discriminate.
    injection Hrun as <- <-.
    pose proof (ev_slot _ _ _ Hev) as Hslot. rewrite Hd in Hslot.
    destruct Hslot as [more ->]. simpl.
    assert (Hf : findService (aliasKeys (registry this) d)
                   (readMap (scopedServices data) s1) = Some h).
    { rewrite Hk in *. eapply getOrCreate_cached; eauto using getService_evolves. }
    destruct (findService_key _ _ _ Hf) as [k Hkh].
    exists (scopedServices data), k, h. split_and!; try done.
    intros Hun.
    destruct (getOrCreate_miss _ _ _ _ _ _ (Hun _ eq_refl) E) as (s2 & Hcr & _).
    by destruct (createInstance_calls _ _ _ _ _ _ (getService_evolves fuel this) Hcr).
Qed.

Lemma evolves_slot_grows this st st' c data :
  evolves this st st' ->
  slots st !! c = Some data ->
  exists more,
    slots st' !! c
    = Some (mkDependencyData (scopedServices data) (onDemandServices data ++ more)).
Proof.
  intros Hev Hd. destruct (decide (c = injectorScope this)) as [E|Hne].
  - subst c. pose proof (ev_slot _ _ _ Hev) as Hs. by rewrite Hd in Hs.
  - rewrite (ev_slots _ _ _ Hev) by done. exists []. rewrite app_nil_r.
    by destruct data.
Qed.

(** Through further resolutions the cached handles stay, and the field
    of a context keeps its scoped cache while its on-demand array grows. *)
Lemma resolvedFrom_keeps st st' :
  resolvedFrom st st' ->
  keepsHandles st st'
  /\ forall c data,
      slots st !! c = Some data ->
      exists more,
        slots st' !! c
        = Some (mkDependencyData (scopedServices data) (onDemandServices data ++ more)).
Proof.
  induction 1 as [|st1 st2 fuel this key Hfrom [IHk IHs] Hrun].
  - split; [apply keepsHandles_refl|].
    intros c data Hd. exists []. rewrite app_nil_r. by destruct data.
  - split.
    + eapply keepsHandles_trans; [exact IHk|].
      by apply (getService_keepsHandles fuel this key).
    + intros c data Hd. destruct (IHs _ _ Hd) as [more Hd1].
      destruct (evolves_slot_grows this st1 st2 c _
                  (getService_evolves fuel this key st1 st2 Hrun) Hd1)
        as [more' Hd2].
      exists (more ++ more'). rewrite Hd2. simpl. by rewrite app_assoc.
Qed.

(** X9: once a call of [getService] on an injector has returned an
    instance, the handle of that instance is among the handles [endScope]
    of that injector gathers in [servicesToDispose] (for a SingleInstance
    key: of the main scope), in the store the call left and in every store
    reached from it by further calls of [getService], on this or on other
    injectors, each made after the one before has finished.  The handle
    carries the descriptor's own callback when the call made the instance.
    So [endScope] of the injector in such a store, whose callbacks return
    as they are taken to, calls that handle's [onScopeEnd] with the
    instance and the context.  The further calls are whole calls that
    begin after the instance was returned: nothing is said here of an
    instance returned to a factory in the middle of a resolution that
    began before, and whose end may still write the cache. *)
Theorem resolved_instance_is_disposed fuel this key d st v st1 st2 :
  wfStore st ->
  wfInjector this st ->
  map_get key (registry this) = Some d ->
  (scope d = SingleInstance -> isMainScope this = true) ->
  getService fuel this key st = Returns v st1 ->
  resolvedFrom st1 st2 ->
  exists data h,
    slots st2 !! injectorScope this = Some data
    /\ In h (servicesToDispose this data st2)
    /\ instance h = v
    /\ (uncached this d st -> handleOnScopeEnd h = onScopeEnd d)
    /\ exists st3 before after,
        endScope this st2 = Returns tt st3
        /\ trace st3
           = trace st2
             ++ before
             ++ ScopeEndCalled (handleOnScopeEnd h) v (VObject (injectorScope this))
             :: after.
Proof.
  intros Hwf (Hl & Hb & _) Hget Hmain Hrun Hfrom.
  assert (Hev : evolves this st st1)
    by (apply (getService_evolves fuel this key); by rewrite Hrun).
  destruct (evolves_slot_bound _ _ _ _ Hev Hb) as [data1 Hd1].
  destruct (resolvedFrom_keeps _ _ Hfrom) as [Hkeep Hslots].
  destruct (Hslots _ _ Hd1) as [more Hd].
  assert (Hhandle : exists h,
             In h (servicesToDispose this
                     (mkDependencyData (scopedServices data1)
                        (onDemandServices data1 ++ more)) st2)
             /\ instance h = v
             /\ (uncached this d st -> handleOnScopeEnd h = onScopeEnd d)).
  { unfold servicesToDispose. simpl. destruct (scope d) eqn:Hsc.
    - destruct (getService_onDemand_pushed _ _ _ _ _ _ _ Hget Hsc Hrun)
        as (data' & front & h & Hd' & Hlist & Hv & Hcb).
      rewrite Hd1 in Hd'. injection Hd' as <-.
      exists h. split_and!; try done.
      rewrite Hlist, !in_app_iff. simpl. naive_solver.
    - assert (Hne : scope d <> OnDemand) by by rewrite Hsc.
      destruct (getService_handle _ _ _ _ _ _ _ Hwf Hl Hget Hne Hrun)
        as (l & k & h & Hc & Hin & Hv & Hcb).
      unfold cacheFor in Hc. rewrite Hsc in Hc. injection Hc as <-.
      exists h. split_and!; try done.
      rewrite (Hmain eq_refl), !in_app_iff. right.
      apply (map_get_values k). by apply Hkeep.
    - assert (Hne : scope d <> OnDemand) by by rewrite Hsc.
      destruct (getService_handle _ _ _ _ _ _ _ Hwf Hl Hget Hne Hrun)
        as (l & k & h & Hc & Hin & Hv & Hcb).
      unfold cacheFor in Hc. rewrite Hsc, Hd1 in Hc. injection Hc as <-.
      exists h. split_and!; try done.
      rewrite !in_app_iff. left. right.
      apply (map_get_values k). by apply Hkeep. }
  destruct Hhandle as (h & Hin & Hv & Hcb).
  eexists _, h. split; [exact Hd|]. split_and!; try done.
  apply in_split in Hin as (l1 & l2 & Hsplit).
  eexists _, (map (scopeEndEvent (injectorScope this)) l1),
    (map (scopeEndEvent (injectorScope this)) l2).
  split; [apply (endScope_store _ _ _ Hd)|]. simpl.
  rewrite Hsplit, map_app. simpl. unfold scopeEndEvent at 2. by rewrite Hv.
Qed.

(** ** Invariants of the store *)

Lemma evolves_distinctCaches this st st' :
  evolves this st st' -> distinctCaches st -> distinctCaches st'.
Proof.
  intros Hev Hdist c c' d d' Hd Hd' Heq.
  destruct (evolves_slot_scoped _ _ _ _ _ Hev Hd) as (d0 & Hd0 & E0).
  destruct (evolves_slot_scoped _ _ _ _ _ Hev Hd') as (d0' & Hd0' & E0').
  apply (Hdist c c' d0 d0'); congruence.
Qed.

(** Binding a context to a new, empty cache, after some [Map]s were
    added, keeps the store well formed. *)
Lemma fresh_slot_store st ctx more :
  wfStore st -> distinctCaches st ->
  let st' :=
    mkStore (objects st) ((maps st ++ more) ++ [[]])
      (<[ctx := mkDependencyData (length (maps st ++ more)) []]> (slots st))
      (trace st) in
  wfStore st' /\ distinctCaches st'.
Proof.
  intros Hwf Hdist st'. subst st'.
  unfold wfStore, distinctCaches. simpl. rewrite !length_app. simpl. split.
  - intros c d. destruct (decide (ctx = c)) as [E|Hne]; [subst c|].
    + rewrite lookup_insert_eq. intros [= <-]. simpl. lia.
    + rewrite lookup_insert_ne by done. intros Hd. specialize (Hwf _ _ Hd). lia.
  - intros c c' d d'.
    destruct (decide (ctx = c)) as [E|Hne];
      destruct (decide (ctx = c')) as [E'|Hne']; [congruence|subst c|subst c'|];
      rewrite ?lookup_insert_eq, ?lookup_insert_ne by done.
    + intros [= <-] Hd'. simpl. specialize (Hwf _ _ Hd'). lia.
    + intros Hd [= <-]. simpl. specialize (Hwf _ _ Hd). lia.
    + apply Hdist.
Qed.


(** Adding [Map]s keeps it well formed. *)
Lemma more_maps_store st more :
  wfStore st -> distinctCaches st ->
  let st' := mkStore (objects st) (maps st ++ more) (slots st) (trace st) in
  wfStore st' /\ distinctCaches st'.
Proof.
  intros Hwf Hdist st'. subst st'. unfold wfStore, distinctCaches. simpl.
  rewrite length_app. split; [|done].
  intros c d Hd. specialize (Hwf _ _ Hd). lia.
Qed.



Lemma newInjector_store scope' registry' services main st :
  wfStore st -> distinctCaches st ->
  wfStore (newInjector scope' registry' services main st).2
  /\ distinctCaches (newInjector scope' registry' services main st).2.
Proof.
  intros Hwf Hdist. unfold newInjector.
  destruct services as [l|]; simpl.
  - destruct (slots st !! scope') as [d|] eqn:Hd; simpl; [done|].
    pose proof (fresh_slot_store st scope' [] Hwf Hdist) as H.
    simpl in H. rewrite !app_nil_r in H. exact H.
  - destruct (slots st !! scope') as [d|] eqn:Hd; simpl.
    + by apply (more_maps_store st [[]]).
    + by apply (fresh_slot_store st scope' [[]]).
Qed.


Lemma createScope_store this newScope st :
  wfStore st -> distinctCaches st ->
  wfStore (createScope this newScope st).2
  /\ distinctCaches (createScope this newScope st).2.
Proof.
  intros Hwf Hdist. unfold createScope, newInjector. simpl.
  destruct (slots st !! newScope) as [d|] eqn:Hd; simpl.
  - by apply (more_maps_store st [_]).
  - by apply (fresh_slot_store st newScope [_]).
Qed.



(** X7: a resolution on a scope leaves the scopes on other context
    objects alone: the field of another context, with its on-demand array,
    and the entries of its Transient cache are what they were. *)
Theorem getService_leaves_other_contexts fuel this key st st' c data :
  wfInjector this st ->
  distinctCaches st ->
  finalState (getService fuel this key st) = Some st' ->
  c <> injectorScope this ->
  slots st !! c = Some data ->
  slots st' !! c = Some data
  /\ readMap (scopedServices data) st' = readMap (scopedServices data) st.
Proof.
  intros (_ & _ & Hsep) Hdist Hrun Hc Hd.
  pose proof (getService_evolves _ _ _ _ _ Hrun) as Hev. split.
  - by rewrite (ev_slots _ _ _ Hev).
  - apply readMap_ext, (ev_maps _ _ _ Hev).
    + by apply (Hsep c).
    + intros d Hthis Heq. by apply Hc, (Hdist c (injectorScope this) data d).
Qed.

(** X8: ending one scope does not end another.  An instance a scope
    has cached for a SingleInstance or Transient key is what the scope
    returns, with no call of a factory, after [endScope] on a scope bound
    to another context object. *)
Theorem cached_instances_survive_other_endScope fuel a b key d st v st1 st2 :
  wfStore st ->
  singleInstanceServices b < length (maps st) ->
  injectorScope a <> injectorScope b ->
  map_get key (registry b) = Some d ->
  scope d <> OnDemand ->
  getService fuel b key st = Returns v st1 ->
  endScope a st1 = Returns tt st2 ->
  forall fuel', getService (S fuel') b key st2 = Returns v st2.
Proof.
  intros Hwf Hl Hne Hget Hsc Hrun Hend fuel'.
  assert (Hev : evolves b st st1)
    by (apply (getService_evolves fuel b key); by rewrite Hrun).
  assert (Hwf1 : wfStore st1) by by apply (evolves_wfStore b st).
  destruct (endScope_wf _ _ _ Hwf1 Hend) as (_ & _ & Hold & _).
  destruct (slots st1 !! injectorScope a) as [da|] eqn:Hda.
  2: { unfold endScope in Hend. by rewrite Hda in Hend. }
  assert (Hslots : slots st2 !! injectorScope b = slots st1 !! injectorScope b).
  { rewrite (endScope_store _ _ _ Hda) in Hend. injection Hend as <-. simpl.
    by rewrite lookup_insert_ne. }
  destruct (scope d) eqn:Hs; [done| |].
  - destruct (getService_singleInstance_cached _ _ _ _ _ _ _ Hget Hs Hl Hrun)
      as (h & Hf & <-).
    apply (getService_singleInstance_hit _ _ _ d); try done.
    rewrite Hold; [done|]. by rewrite (ev_length _ _ _ Hev).
  - destruct (getService_transient_cached _ _ _ _ _ _ _ Hget Hs Hwf Hrun)
      as (data & h & Hd & Hf & <-).
    apply (getService_transient_hit _ _ _ d _ data); try done.
    + by rewrite Hslots.
    + rewrite Hold; [done|]. exact (Hwf1 _ _ Hd).
Qed.

(** ** The validator: what a pass keeps *)

Lemma set_has_add k k' (visited : JsSet) :
  set_has k (set_add k' visited) = true <-> k = k' \/ set_has k visited = true.
Proof.
  unfold set_add. destruct (set_has k' visited) eqn:E.
  - split; [auto|]. intros [->|?]; done.
  - unfold set_has. rewrite existsb_app. simpl. rewrite orb_false_r, orb_true_iff.
    rewrite String.eqb_eq. tauto.
Qed.

Lemma addVisited_all keys :
  forall s,
    trackedErrors (fold_left addVisited keys s) = trackedErrors s
    /\ constructed (fold_left addVisited keys s) = constructed s
    /\ forall k, set_has k (visitedServices (fold_left addVisited keys s)) = true
                 <-> In k keys \/ set_has k (visitedServices s) = true.
Proof.
  induction keys as [|c keys IH]; intros s; simpl.
  - split_and!; try done. intros k. tauto.
  - destruct (IH (addVisited s c)) as (He & Hc & Hv). simpl in *.
    split_and!; try done. intros k. rewrite Hv, set_has_add.
    split; [intros [?|[->|?]]|intros [[<-|?]|?]]; auto.
Qed.

Lemma passGrows_refl s : passGrows s s.
Proof. split; [exists []; by rewrite app_nil_r|done]. Qed.

Lemma passGrows_trans s1 s2 s3 : passGrows s1 s2 -> passGrows s2 s3 -> passGrows s1 s3.
Proof.
  intros [[m1 H1] Hv1] [[m2 H2] Hv2]. split; [|auto].
  exists (m1 ++ m2). by rewrite H2, H1, app_assoc.
Qed.

Lemma passGrows_pushError message s : passGrows s (pushError message s).
Proof. split; [by exists [message]|done]. Qed.

Lemma passGrows_construct args s : passGrows s (passConstruct args s).2.
Proof. split; [exists []; simpl; by rewrite app_nil_r|done]. Qed.

Lemma passGrows_addVisited keys s : passGrows s (fold_left addVisited keys s).
Proof.
  destruct (addVisited_all keys s) as (He & _ & Hv). split.
  - exists []. by rewrite He, app_nil_r.
  - intros k Hk. apply Hv. auto.
Qed.

(** Within a pass the errors are only appended to and the visited keys
    only added to. *)
Lemma mockRegistry_grows fuel key parentScope (registry : Registry) :
  forall dependencyKey s s',
    finalState (mockRegistry fuel key parentScope registry dependencyKey s) = Some s' ->
    passGrows s s'.
Proof.
  induction fuel as [|fuel IH]; intros dependencyKey s s'; [discriminate|].
  rewrite mockRegistry_unfold.
  destruct (map_get dependencyKey registry) as [d|].
  2: { intros [= <-]. apply passGrows_pushError. }
  destruct (set_has dependencyKey (visitedServices s)).
  { intros [= <-]. apply passGrows_pushError. }
  destruct (scopeLt parentScope (scope d)).
  { intros [= <-]. apply passGrows_pushError. }
  unfold bind.
  destruct (runFactory _ _ _ _) as [v s1|e s1|] eqn:E; simpl; try discriminate.
  - intros [= <-]. eapply passGrows_trans; [apply passGrows_addVisited|].
    eapply (runFactory_respects passConstruct _ passGrows);
      eauto using passGrows_refl, passGrows_trans, passGrows_construct.
    by rewrite E.
  - intros [= <-]. eapply passGrows_trans; [apply passGrows_addVisited|].
    eapply (runFactory_respects passConstruct _ passGrows);
      eauto using passGrows_refl, passGrows_trans, passGrows_construct.
    by rewrite E.
Qed.

(** The resolver of a pass never throws. *)
Lemma mockRegistry_no_throw fuel key parentScope (registry : Registry) :
  forall dependencyKey s e s',
    mockRegistry fuel key parentScope registry dependencyKey s <> Throws e s'.
Proof.
  induction fuel as [|fuel IH]; intros dependencyKey s e s'; [discriminate|].
  rewrite mockRegistry_unfold.
  destruct (map_get dependencyKey registry) as [d|]; [|discriminate].
  destruct (set_has dependencyKey (visitedServices s)); [discriminate|].
  destruct (scopeLt parentScope (scope d)); [discriminate|].
  unfold bind.
  destruct (runFactory _ _ _ _) as [v s1|e1 s1|] eqn:E; try discriminate.
  exfalso.
  eapply (runFactory_throws passConstruct _ (fun _ => True) (fun _ => False));
    [done|done| |done|exact E].
  intros key' s0 e0 s0' _ Hrun. exact (IH _ _ _ _ Hrun).
Qed.

Lemma countUnvisited_le keys (v v' : JsSet) :
  (forall k, set_has k v = true -> set_has k v' = true) ->
  countUnvisited keys v' <= countUnvisited keys v.
Proof.
  intros Hsub. induction keys as [|k keys IH]; simpl; [lia|].
  destruct (set_has k v) eqn:E; [rewrite (Hsub _ E); lia|].
  destruct (set_has k v'); lia.
Qed.

Lemma countUnvisited_lt keys (v v' : JsSet) k :
  (forall k, set_has k v = true -> set_has k v' = true) ->
  In k keys -> set_has k v = false -> set_has k v' = true ->
  countUnvisited keys v' < countUnvisited keys v.
Proof.
  intros Hsub Hin Hk Hk'. induction keys as [|c keys IH]; simpl; [destruct Hin|].
  destruct Hin as [->|Hin].
  - rewrite Hk, Hk'. pose proof (countUnvisited_le keys v v' Hsub). lia.
  - specialize (IH Hin). destruct (set_has c v) eqn:E; [rewrite (Hsub _ E); lia|].
    destruct (set_has c v'); lia.
Qed.

Lemma countUnvisited_length keys (v : JsSet) : countUnvisited keys v <= length keys.
Proof. induction keys as [|k keys IH]; simpl; [lia|]. destruct (set_has k v); lia. Qed.

Lemma map_get_key_In {V} k (m : JsMap V) v : map_get k m = Some v -> In k (map_keys m).
Proof.
  intros H. apply map_get_In in H. unfold map_keys. apply in_map_iff. by exists (k, v).
Qed.

Lemma allEquivalentServices_self (registry : Registry) k d :
  map_get k registry = Some d -> In k (allEquivalentServices registry d).
Proof.
  intros H. apply allEquivalentServices_In. exists d. split; [by apply map_get_In|done].
Qed.

Section PassTerminates.
Variables (key : string) (parentScope : ScopeType) (registry : Registry).

(** Running a factory against a resolver that answers whenever no more
    than [n] keys are left to visit. *)
Lemma runFactory_pass_returns (getter : ServiceGetter PassState) n :
  (forall dep s,
      countUnvisited (map_keys registry) (visitedServices s) <= n ->
      exists s', getter dep s = Returns VUndefined s' /\ passGrows s s') ->
  forall f s,
    countUnvisited (map_keys registry) (visitedServices s) <= n ->
    exists v s', runFactory passConstruct getter f s = Returns v s' /\ passGrows s s'.
Proof.
  intros Hg. induction f as [v|args k IH|dep k IH]; intros s Hn; simpl.
  - eauto using passGrows_refl.
  - destruct (IH (VObject (constructed s))
                (mkPass (trackedErrors s) (visitedServices s) (S (constructed s))) Hn)
      as (v & s' & -> & Hgrow).
    exists v, s'. split; [done|].
    eapply passGrows_trans; [apply (passGrows_construct args s)|done].
  - destruct (Hg dep s Hn) as (s1 & -> & Hg1).
    destruct (IH VUndefined s1) as (v & s' & -> & Hgrow).
    + pose proof (countUnvisited_le (map_keys registry) _ _ (proj2 Hg1)). lia.
    + eauto using passGrows_trans.
Qed.

Lemma mockRegistry_returns fuel :
  forall dependencyKey s,
    countUnvisited (map_keys registry) (visitedServices s) < fuel ->
    exists s',
      mockRegistry fuel key parentScope registry dependencyKey s = Returns VUndefined s'
      /\ passGrows s s'.
Proof.
  induction fuel as [|fuel IH]; intros dependencyKey s Hn; [lia|].
  rewrite mockRegistry_unfold.
  destruct (map_get dependencyKey registry) as [d|] eqn:Hget.
  2: { eauto using passGrows_pushError. }
  destruct (set_has dependencyKey (visitedServices s)) eqn:Hv.
  { eauto using passGrows_pushError. }
  destruct (scopeLt parentScope (scope d)).
  { eauto using passGrows_pushError. }
  set (s1 := fold_left addVisited (allEquivalentServices registry d) s).
  destruct (addVisited_all (allEquivalentServices registry d) s) as (_ & _ & Hvis).
  assert (Hlt : countUnvisited (map_keys registry) (visitedServices s1)
                < countUnvisited (map_keys registry) (visitedServices s)).
  { apply (countUnvisited_lt _ _ _ dependencyKey).
    - intros k Hk. apply Hvis. auto.
    - by apply (map_get_key_In _ _ d).
    - done.
    - apply Hvis. left. by apply allEquivalentServices_self. }
  destruct (runFactory_pass_returns
              (mockRegistry fuel key parentScope registry) (fuel - 1))
    with (f := call (factory d) createDynamicContext) (s := s1)
    as (v & s' & Hrun & Hgrow).
  - intros dep s0 Hs0. apply IH. lia.
  - lia.
  - unfold bind. rewrite Hrun. exists s'. split; [done|].
    eapply passGrows_trans; [apply passGrows_addVisited|done].
Qed.
End PassTerminates.

Lemma mockRegistry_more_fuel key parentScope (registry : Registry) n :
  forall m dependencyKey s o,
    n <= m ->
    mockRegistry n key parentScope registry dependencyKey s = o -> o <> OutOfFuel ->
    mockRegistry m key parentScope registry dependencyKey s = o.
Proof.
  induction n as [|n IH]; intros m dependencyKey s o Hle.
  { simpl. intros <-. done. }
  destruct m as [|m]; [lia|]. rewrite !mockRegistry_unfold.
  destruct (map_get dependencyKey registry) as [d|]; [|done].
  destruct (set_has dependencyKey (visitedServices s)); [done|].
  destruct (scopeLt parentScope (scope d)); [done|].
  unfold bind.
  destruct (runFactory passConstruct (mockRegistry n key parentScope registry) _ _)
    as [v s1|e s1|] eqn:E.
  - rewrite (runFactory_more passConstruct _ (mockRegistry m key parentScope registry)
               ltac:(intros; apply IH; [lia|done..]) _ _ _ E) by done.
    done.
  - rewrite (runFactory_more passConstruct _ (mockRegistry m key parentScope registry)
               ltac:(intros; apply IH; [lia|done..]) _ _ _ E) by done.
    done.
  - intros <-. done.
Qed.

Lemma validateEntry_returns fuel entry (registry : Registry) :
  length registry < fuel ->
  exists errors,
    validateEntry fuel entry registry = Some errors
    /\ forall fuel', length registry < fuel' ->
                     validateEntry fuel' entry registry = Some errors.
Proof.
  intros Hfuel. destruct entry as [key value]. unfold validateEntry.
  assert (Hrun : forall n, length registry < n ->
            exists v s',
              runFactory passConstruct (mockRegistry n key (scope value) registry)
                (call (factory value) createDynamicContext) (mkPass [] [] 0)
              = Returns v s').
  { intros n Hn.
    destruct (runFactory_pass_returns registry
                (mockRegistry n key (scope value) registry) (n - 1))
      with (f := call (factory value) createDynamicContext) (s := mkPass [] [] 0)
      as (v & s' & Hrun & _).
    - intros dep s0 Hs0. apply mockRegistry_returns. lia.
    - pose proof (countUnvisited_length (map_keys registry) []).
      unfold map_keys in *. rewrite length_map in *. simpl. lia.
    - eauto. }
  destruct (Hrun fuel Hfuel) as (v & s' & E). rewrite E.
  exists (trackedErrors s'). split; [done|].
  intros fuel' Hfuel'. destruct (Hrun fuel' Hfuel') as (v' & s'' & E').
  destruct (Nat.le_ge_cases fuel fuel') as [Hle|Hle].
  - rewrite (runFactory_more passConstruct _
               (mockRegistry fuel' key (scope value) registry)
               ltac:(intros; eapply mockRegistry_more_fuel; [exact Hle|done..])
               _ _ _ E) by done.
    done.
  - rewrite E'.
    rewrite (runFactory_more passConstruct _
               (mockRegistry fuel key (scope value) registry)
               ltac:(intros; eapply mockRegistry_more_fuel; [exact Hle|done..])
               _ _ _ E') in E by done.
    by injection E as -> ->.
Qed.

(** X10: [validateRegistry] terminates on every registry, circular ones
    too: with more fuel than the registry has entries it returns, and it
    returns the same lines whatever fuel above that it is given. *)
Theorem validateRegistry_terminates (registry : Registry) fuel :
  length registry < fuel ->
  exists errors,
    validateRegistry fuel registry = Some errors
    /\ forall fuel', length registry < fuel' ->
                     validateRegistry fuel' registry = Some errors.
Proof.
  intros Hfuel. unfold validateRegistry, map_entries.
  assert (Hfold : forall entries aggregated,
             exists errors,
               forall n, length registry < n ->
                 fold_left
                   (fun aggregatedErrors t =>
                      match aggregatedErrors, validateEntry n t registry with
                      | Some aggregated, Some errors => Some (aggregated ++ errors)
                      | _, _ => None
                      end) entries (Some aggregated) = Some errors).
  { induction entries as [|t entries IH]; intros aggregated; simpl.
    - eauto.
    - destruct (validateEntry_returns fuel t registry Hfuel) as (errors & _ & Hall).
      destruct (IH (aggregated ++ errors)) as (result & Hresult).
      exists result. intros n Hn. rewrite (Hall n Hn). by apply Hresult. }
  destruct (Hfold registry []) as (errors & Herrors). eauto.
Qed.

Lemma In_map_get_Some {V} k (v : V) (m : JsMap V) :
  In (k, v) m -> is_Some (map_get k m).
Proof.
  induction m as [|[k0 x] m IH]; simpl; [done|].
  intros [[= -> ->]|Hin].
  - rewrite String.eqb_refl. eauto.
  - destruct (String.eqb k0 k); eauto.
Qed.

(** X11: the resolver never removes a key from the visited set.  Once
    it has descended into a key, any later request in the same pass for
    that key, or for a key that holds the same factory, is answered with
    the circular-dependency line, whether or not there is a cycle. *)
Theorem revisit_reported_as_circular fuel key parentScope (registry : Registry)
    dependencyKey d s v s' :
  map_get dependencyKey registry = Some d ->
  set_has dependencyKey (visitedServices s) = false ->
  (ordinal (scope d) <= ordinal parentScope)%Z ->
  mockRegistry fuel key parentScope registry dependencyKey s = Returns v s' ->
  In dependencyKey (allEquivalentServices registry d)
  /\ forall k s'' fuel',
      In k (allEquivalentServices registry d) ->
      passGrows s' s'' ->
      mockRegistry (S fuel') key parentScope registry k s''
      = Returns VUndefined (pushError (circularMessage key k) s'').
Proof.
  intros Hget Hvisited Hord Hrun. split; [by apply allEquivalentServices_self|].
  intros k s'' fuel' Hk Hgrow.
  assert (Hvis : set_has k (visitedServices s') = true).
  { destruct fuel as [|fuel]; [discriminate|].
    rewrite mockRegistry_unfold, Hget, Hvisited in Hrun.
    assert (Hlt : scopeLt parentScope (scope d) = false)
      by (unfold scopeLt; apply Z.ltb_ge; lia).
    rewrite Hlt in Hrun. unfold bind in Hrun.
    destruct (runFactory _ _ _ _) as [v1 s1|e s1|] eqn:E; try discriminate.
    injection Hrun as <- <-.
    assert (Hg : passGrows (fold_left addVisited (allEquivalentServices registry d) s) s1).
    { eapply (runFactory_respects passConstruct _ passGrows);
        eauto using passGrows_refl, passGrows_trans, passGrows_construct,
          mockRegistry_grows.
      by rewrite E. }
    apply Hg. apply addVisited_all. auto. }
  apply allEquivalentServices_In in Hk as (d' & Hin & _).
  destruct (In_map_get_Some _ _ _ Hin) as [d'' Hget'].
  rewrite mockRegistry_unfold, Hget'. by rewrite (proj2 Hgrow _ Hvis).
Qed.

(** ** The lines of [validateRegistry] *)

Lemma validateRegistry_lines fuel (registry : Registry) errors :
  validateRegistry fuel registry = Some errors ->
  forall line,
    In line errors <->
    exists entry lines,
      In entry registry
      /\ validateEntry fuel entry registry = Some lines
      /\ In line lines.
Proof.
  unfold validateRegistry, map_entries.
  assert (Hfold : forall entries aggregated errors,
             fold_left
               (fun aggregatedErrors t =>
                  match aggregatedErrors, validateEntry fuel t registry with
                  | Some aggregated, Some errors => Some (aggregated ++ errors)
                  | _, _ => None
                  end) entries aggregated = Some errors ->
             exists start,
               aggregated = Some start
               /\ forall line,
                   In line errors <->
                   In line start
                   \/ exists entry lines,
                       In entry entries
                       /\ validateEntry fuel entry registry = Some lines
                       /\ In line lines).
  { induction entries as [|t entries IH]; intros aggregated result; simpl.
    - intros ->. exists result. split; [done|]. intros line. split; [auto|].
      intros [?|(? & ? & [] & _)]. done.
    - intros Hrun. destruct (IH _ _ Hrun) as (start & Hstart & Hlines).
      destruct aggregated as [a|]; [|discriminate].
      destruct (validateEntry fuel t registry) as [es|] eqn:E; [|discriminate].
      injection Hstart as <-. exists a. split; [done|].
      intros line. rewrite Hlines, in_app_iff. split.
      + intros [[?|?]|(entry & lines & ? & ? & ?)]; eauto 10.
      + intros [?|(entry & lines & [<-|?] & Hv & ?)]; eauto 10.
        rewrite E in Hv. injection Hv as <-. auto. }
  intros Hrun line. destruct (Hfold _ _ _ Hrun) as (start & [= <-] & Hlines).
  rewrite Hlines. split; [intros [[]|?]; done|auto].
Qed.

Lemma mockRegistry_diagnostics fuel key parentScope (registry : Registry) :
  forall dependencyKey s s',
    finalState (mockRegistry fuel key parentScope registry dependencyKey s) = Some s' ->
    Forall (diagnosticOf key parentScope registry) (trackedErrors s) ->
    Forall (diagnosticOf key parentScope registry) (trackedErrors s').
Proof.
  induction fuel as [|fuel IH]; intros dependencyKey s s'; [discriminate|].
  rewrite mockRegistry_unfold.
  destruct (map_get dependencyKey registry) as [d|] eqn:Hget.
  2: { intros [= <-] Hall. simpl. apply Forall_app. split; [done|].
       apply Forall_singleton. exists dependencyKey. auto. }
  destruct (set_has dependencyKey (visitedServices s)).
  { intros [= <-] Hall. simpl. apply Forall_app. split; [done|].
    apply Forall_singleton. exists dependencyKey. right. left. rewrite Hget. eauto. }
  destruct (scopeLt parentScope (scope d)) eqn:Hlt.
  { intros [= <-] Hall. simpl. apply Forall_app. split; [done|].
    apply Forall_singleton. exists dependencyKey. right. right. exists d.
    unfold scopeLt in Hlt. apply Z.ltb_lt in Hlt. auto. }
  unfold bind.
  destruct (runFactory _ _ _ _) as [v s1|e s1|] eqn:E; simpl; try discriminate.
  - intros [= <-] Hall.
    eapply (runFactory_respects passConstruct _
              (fun a b => Forall (diagnosticOf key parentScope registry) (trackedErrors a) ->
                          Forall (diagnosticOf key parentScope registry) (trackedErrors b)));
      [| | | |by rewrite E|]; eauto.
    by rewrite (proj1 (addVisited_all _ s)).
  - intros [= <-] Hall.
    eapply (runFactory_respects passConstruct _
              (fun a b => Forall (diagnosticOf key parentScope registry) (trackedErrors a) ->
                          Forall (diagnosticOf key parentScope registry) (trackedErrors b)));
      [| | | |by rewrite E|]; eauto.
    by rewrite (proj1 (addVisited_all _ s)).
Qed.

(** X12: every line [validateRegistry] returns is one of the three
    messages, names the key of an entry of the registry as its root, and
    is about a dependency key that is unregistered for the first message,
    registered for the second, and registered with a lifetime of greater
    ordinal than the root's for the third. *)
Theorem validateRegistry_diagnostics fuel (registry : Registry) errors :
  validateRegistry fuel registry = Some errors ->
  forall line,
    In line errors ->
    exists key value,
      In (key, value) registry /\ diagnosticOf key (scope value) registry line.
Proof.
  intros Hrun line Hline.
  apply (validateRegistry_lines _ _ _ Hrun) in Hline
    as ([key value] & lines & Hentry & Hlines & Hin).
  exists key, value. split; [done|].
  unfold validateEntry in Hlines.
  destruct (runFactory _ _ _ _) as [v s'| |] eqn:E; try discriminate.
  injection Hlines as <-.
  assert (Hall : Forall (diagnosticOf key (scope value) registry) (trackedErrors s')).
  { eapply (runFactory_respects passConstruct _
              (fun a b => Forall (diagnosticOf key (scope value) registry) (trackedErrors a) ->
                          Forall (diagnosticOf key (scope value) registry) (trackedErrors b)));
      [| | | |by rewrite E|]; eauto using mockRegistry_diagnostics. }
  rewrite Forall_forall in Hall. apply Hall. by apply list_elem_of_In.
Qed.

(** ** A missing dependency is reported *)

Lemma resolveAll_reports (getter : ServiceGetter PassState) m message K :
  (forall dep s s', finalState (getter dep s) = Some s' -> passGrows s s') ->
  (forall s o, getter m s = o -> o <> OutOfFuel ->
               o = Returns VUndefined (pushError message s)) ->
  forall dependencies services s v s',
    In m dependencies ->
    runFactory passConstruct getter (resolveAll dependencies services K) s
    = Returns v s' ->
    In message (trackedErrors s').
Proof.
  intros Hgrow Hm. induction dependencies as [|t rest IH]; intros services s v s' Hin;
    [destruct Hin|].
  simpl. destruct (getter t s) as [v1 s1|e s1|] eqn:E; try discriminate.
  intros Hrun. destruct (decide (t = m)) as [->|Hne].
  - assert (Hs1 : Returns v1 s1 = Returns VUndefined (pushError message s))
      by by apply Hm.
    injection Hs1 as -> ->.
    assert (Hg : passGrows (pushError message s) s').
    { eapply (runFactory_respects passConstruct getter passGrows);
        eauto using passGrows_refl, passGrows_trans, passGrows_construct.
      by rewrite Hrun. }
    destruct Hg as [[more ->] _]. simpl. rewrite !in_app_iff. simpl. auto.
  - destruct Hin as [?|Hin]; [done|]. by apply (IH _ _ _ _ Hin Hrun).
Qed.

(** When the [reduce] returns, the pass of every entry has returned. *)
Lemma validateRegistry_entries fuel (registry : Registry) errors entry :
  validateRegistry fuel registry = Some errors ->
  In entry registry ->
  exists lines, validateEntry fuel entry registry = Some lines.
Proof.
  unfold validateRegistry, map_entries.
  assert (Hfold : forall entries aggregated,
             fold_left
               (fun aggregatedErrors t =>
                  match aggregatedErrors, validateEntry fuel t registry with
                  | Some aggregated, Some errors => Some (aggregated ++ errors)
                  | _, _ => None
                  end) entries aggregated = Some errors ->
             is_Some aggregated
             /\ forall t, In t entries -> is_Some (validateEntry fuel t registry)).
  { induction entries as [|t entries IH]; intros aggregated; simpl.
    - intros ->. split; [eauto|]. by intros t [].
    - intros Hrun. destruct (IH _ Hrun) as [[start Hstart] Hrest].
      destruct aggregated as [a|]; [|discriminate].
      destruct (validateEntry fuel t registry) as [es|] eqn:E; [|discriminate].
      split; [eauto|]. intros t' [<-|Hin]; [by rewrite E|auto]. }
  intros Hrun Hin. destruct (Hfold _ _ Hrun) as [_ Hall].
  destruct (Hall _ Hin) as [lines Hlines]. eauto.
Qed.

(** X13: whenever [validateRegistry] returns its lines, they contain
    the missing line for every root whose factory resolves its
    dependencies one after the other before anything else (the factories
    [addType] builds do so) and every unregistered key among those
    dependencies.  Nothing is said of a run that does not return, as when
    a constructor called by the pass throws. *)
Theorem missing_dependency_reported fuel (registry : Registry) key value
    dependencies K m errors :
  validateRegistry fuel registry = Some errors ->
  In (key, value) registry ->
  call (factory value) createDynamicContext = resolveAll dependencies [] K ->
  In m dependencies ->
  map_get m registry = None ->
  In (missingMessage key m) errors.
Proof.
  intros Hrun Hentry Hbody Hin Hm.
  destruct (validateRegistry_entries _ _ _ _ Hrun Hentry) as [lines Hlines].
  apply (validateRegistry_lines _ _ _ Hrun). exists (key, value), lines.
  split_and!; try done.
  unfold validateEntry in Hlines. rewrite Hbody in Hlines.
  destruct (runFactory _ _ _ _) as [v s'| |] eqn:E; try discriminate.
  injection Hlines as <-.
  eapply (resolveAll_reports _ m _ K); [| |exact Hin|exact E].
  - apply mockRegistry_grows.
  - intros s o Ho Hfin. destruct fuel as [|n]; [by subst o|].
    rewrite mockRegistry_unfold, Hm in Ho. done.
Qed.

(** ** The further properties at work *)

Lemma initialStore_distinctCaches n : distinctCaches (initialStore n).
Proof. intros c c' d d'. unfold initialStore. simpl. by rewrite lookup_empty. Qed.

Lemma demoRoot_distinctCaches : distinctCaches demoRoot.2.
Proof.
  apply (newInjector_store 0 demoRegistry None true (initialStore 11)
           (initialStore_wf 11) (initialStore_distinctCaches 11)).
Qed.

Lemma demoResolved_distinctCaches : distinctCaches demoResolved.
Proof.
  apply (evolves_distinctCaches demoRoot.1 demoRoot.2);
    [|apply demoRoot_distinctCaches].
  apply (getService_evolves 4 _ "Request"). by rewrite demoResolved_run.
Qed.

Lemma demoChild_wf :
  wfStore demoChild.2 /\ distinctCaches demoChild.2
  /\ wfInjector demoChild.1 demoChild.2 /\ wfInjector demoRoot.1 demoChild.2.
Proof.
  destruct demoResolved_wf as [Hs Hi].
  destruct (createScope_wf demoRoot.1 1 demoResolved demoChild.1 demoChild.2
              Hs Hi eq_refl) as (? & ? & ? & _).
  split_and!; try done.
  apply (createScope_store demoRoot.1 1 demoResolved Hs demoResolved_distinctCaches).
Qed.

Lemma missingRoot_wf : wfStore missingRoot.2 /\ wfInjector missingRoot.1 missingRoot.2.
Proof.
  destruct (newInjector_wf 0 missingRegistry (initialStore 14) missingRoot.1
              missingRoot.2 (initialStore_wf 14) eq_refl) as (? & ? & _).
  done.
Qed.

Lemma optionService_constructs context :
  constructs (call (factory optionService) context).
Proof. simpl. apply constructs_new. Qed.

(** On [optionBuilder], to which 'Cache' and 'Store' are added together. *)
Lemma add_aliasKeys_witness :
  (forall k d, In (k, d) (build optionBuilder) -> configRef d <> 5)
  /\ forall k,
      In k (aliasKeys
              (build (addType 5 6 ["Cache"; "Store"] ["Option"] SingleInstance 7
                        optionBuilder))
              cacheService)
      <-> In k ["Cache"; "Store"].
Proof.
  assert (Hfresh : forall k d, In (k, d) (build optionBuilder) -> configRef d <> 5).
  { intros k d [[= <- <-]|[]]. simpl. lia. }
  split; [exact Hfresh|].
  exact (add_aliasKeys 5 ["Cache"; "Store"] (factory cacheService) SingleInstance 7
           optionBuilder Hfresh).
Defined.

(** On [optionBuilder], to which 'Option' is given again with 'Cache'. *)
Lemma add_keys_witness :
  NoDup (map_keys (build optionBuilder))
  /\ exists more,
      map_keys (build (add 5 ["Option"; "Cache"] (factory cacheService)
                         SingleInstance 7 optionBuilder))
      = ["Option"] ++ more
      /\ (In "Cache" more /\ ~ In "Option" more).
Proof.
  assert (Hnd : NoDup (map_keys (build optionBuilder))).
  { unfold optionBuilder, addType. apply add_NoDup. apply NoDup_nil_2. }
  split; [exact Hnd|].
  destruct (add_keys 5 ["Option"; "Cache"] (factory cacheService) SingleInstance 7
              optionBuilder Hnd) as (more & Hkeys & Hmore & _).
  exists more. split; [exact Hkeys|]. split.
  - apply Hmore. split; [simpl; auto|]. simpl. intros [E|[]]. discriminate.
  - intros Hin. apply Hmore in Hin as [_ Hn]. apply Hn. simpl. auto.
Defined.

(** On the root of [demoRegistry]: 'Option' is the object 11, then 12. *)
Lemma onDemand_never_reused_witness :
  map_get "Option" (registry demoRoot.1) = Some optionService
  /\ scope optionService = OnDemand
  /\ getService 2 demoRoot.1 "Option" demoRoot.2 = Returns (VObject 11) demoOption1
  /\ getService 2 demoRoot.1 "Option" demoOption1 = Returns (VObject 12) demoOption2
  /\ VObject 11 <> VObject 12
  /\ exists data front h1 between h2,
      slots demoOption2 !! injectorScope demoRoot.1 = Some data
      /\ onDemandServices data = front ++ h1 :: between ++ [h2]
      /\ instance h1 = VObject 11 /\ instance h2 = VObject 12.
Proof.
  assert (Hrun1 : getService 2 demoRoot.1 "Option" demoRoot.2
                  = Returns (VObject 11) demoOption1) by (vm_compute; reflexivity).
  assert (Hrun2 : getService 2 demoRoot.1 "Option" demoOption1
                  = Returns (VObject 12) demoOption2) by (vm_compute; reflexivity).
  destruct (onDemand_never_reused 2 2 demoRoot.1 "Option" optionService demoRoot.2
              (VObject 11) demoOption1 (VObject 12) demoOption2
              eq_refl eq_refl Hrun1 Hrun2)
    as (_ & (data & front & h1 & between & h2 & Hd & Hlist & Hv1 & Hv2 & _)
        & Hdiff & _).
  split_and!; [reflexivity|reflexivity|exact Hrun1|exact Hrun2| |].
  - apply Hdiff. apply optionService_constructs.
  - by exists data, front, h1, between, h2.
Defined.

(** On the root of [missingRegistry]: 'CommonService' asks for
    'UnregisteredService'. *)
Lemma getService_missing_dependency_witness :
  map_get "CommonService" (registry missingRoot.1) = Some commonService
  /\ uncached missingRoot.1 commonService missingRoot.2
  /\ is_Some (slots missingRoot.2 !! injectorScope missingRoot.1)
  /\ map_get "UnregisteredService" (registry missingRoot.1) = None
  /\ getService 2 missingRoot.1 "CommonService" missingRoot.2
     = Throws (Error "There's no type registered to the key UnregisteredService.")
         (record (FactoryCalled 12 (VObject 0)) missingRoot.2).
Proof.
  assert (Hun : uncached missingRoot.1 commonService missingRoot.2) by exact I.
  assert (Hb : is_Some (slots missingRoot.2 !! injectorScope missingRoot.1))
    by apply missingRoot_wf.
  split; [reflexivity|]. split; [exact Hun|]. split; [exact Hb|].
  split; [reflexivity|].
  exact (getService_missing_dependency 0 missingRoot.1 "CommonService" commonService
           "UnregisteredService"
           (fun v => resolveAll [] [v] (fun services => Construct services Return))
           missingRoot.2 eq_refl Hun Hb eq_refl eq_refl).
Defined.


(** On the child of [demoRoot] over the context 1: its resolution of
    'Request' leaves the field of the context 0 as it was. *)
Lemma getService_leaves_other_contexts_witness :
  wfInjector demoChild.1 demoChild.2
  /\ distinctCaches demoChild.2
  /\ finalState (getService 4 demoChild.1 "Request" demoChild.2)
     = Some demoChildResolved
  /\ 0 <> injectorScope demoChild.1
  /\ slots demoChild.2 !! 0 = Some demoData
  /\ slots demoChildResolved !! 0 = Some demoData
  /\ readMap 1 demoChildResolved = [("Request", mkHandle (VObject 14) 10)].
Proof.
  destruct demoChild_wf as (_ & Hdist & Hchild & _).
  assert (Hrun : finalState (getService 4 demoChild.1 "Request" demoChild.2)
                 = Some demoChildResolved) by (vm_compute; reflexivity).
  assert (Hne : 0 <> injectorScope demoChild.1) by (simpl; lia).
  assert (Hd : slots demoChild.2 !! 0 = Some demoData) by (vm_compute; reflexivity).
  destruct (getService_leaves_other_contexts 4 demoChild.1 "Request" demoChild.2
              demoChildResolved 0 demoData Hchild Hdist Hrun Hne Hd)
    as [Hslot Hmap].
  split_and!; [done..|]. simpl in Hmap. rewrite Hmap. reflexivity.
Defined.

(** On the same child: its 'Request', the object 16, survives the end of
    the root's scope. *)
Lemma cached_instances_survive_other_endScope_witness :
  wfStore demoChild.2
  /\ singleInstanceServices demoChild.1 < length (maps demoChild.2)
  /\ injectorScope demoRoot.1 <> injectorScope demoChild.1
  /\ map_get "Request" (registry demoChild.1) = Some requestService
  /\ scope requestService <> OnDemand
  /\ getService 4 demoChild.1 "Request" demoChild.2
     = Returns (VObject 16) demoChildResolved
  /\ endScope demoRoot.1 demoChildResolved = Returns tt demoRootEnded
  /\ getService 1 demoChild.1 "Request" demoRootEnded
     = Returns (VObject 16) demoRootEnded.
Proof.
  destruct demoChild_wf as (Hs & _ & (Hl & _) & _).
  assert (Hne : injectorScope demoRoot.1 <> injectorScope demoChild.1)
    by (simpl; lia).
  assert (Hsc : scope requestService <> OnDemand) by done.
  assert (Hrun : getService 4 demoChild.1 "Request" demoChild.2
                 = Returns (VObject 16) demoChildResolved)
    by (vm_compute; reflexivity).
  assert (Hend : endScope demoRoot.1 demoChildResolved = Returns tt demoRootEnded)
    by (vm_compute; reflexivity).
  split_and!; [done..|].
  exact (cached_instances_survive_other_endScope 4 demoRoot.1 demoChild.1 "Request"
           requestService demoChild.2 (VObject 16) demoChildResolved demoRootEnded
           Hs Hl Hne eq_refl Hsc Hrun Hend 0).
Defined.

(** On the root of [demoRegistry]: 'Request', the object 14, is still
    disposed of with its descriptor's callback 10 after the root has gone
    on to resolve 'Option'. *)
Lemma resolved_instance_is_disposed_witness :
  wfStore demoRoot.2
  /\ wfInjector demoRoot.1 demoRoot.2
  /\ map_get "Request" (registry demoRoot.1) = Some requestService
  /\ (scope requestService = SingleInstance -> isMainScope demoRoot.1 = true)
  /\ getService 4 demoRoot.1 "Request" demoRoot.2 = Returns (VObject 14) demoResolved
  /\ resolvedFrom demoResolved demoResolvedOption
  /\ exists st3 before after,
      endScope demoRoot.1 demoResolvedOption = Returns tt st3
      /\ trace st3
         = trace demoResolvedOption
           ++ before ++ ScopeEndCalled 10 (VObject 14) (VObject 0) :: after.
Proof.
  destruct demoRoot_wf as [Hs Hi].
  assert (Hmain : scope requestService = SingleInstance -> isMainScope demoRoot.1 = true)
    by done.
  assert (Hun : uncached demoRoot.1 requestService demoRoot.2).
  { intros data Hd. vm_compute in Hd. injection Hd as <-. reflexivity. }
  assert (Hfrom : resolvedFrom demoResolved demoResolvedOption).
  { apply (resolvedFrom_step demoResolved demoResolved demoResolvedOption
             2 demoRoot.1 "Option" (resolvedFrom_refl demoResolved)).
    by vm_compute. }
  destruct (resolved_instance_is_disposed 4 demoRoot.1 "Request" requestService
              demoRoot.2 (VObject 14) demoResolved demoResolvedOption Hs Hi eq_refl
              Hmain demoResolved_run Hfrom)
    as (data & h & _ & _ & _ & Hcb & st3 & before & after & Hend & Htrace).
  split; [exact Hs|]. split; [exact Hi|]. split; [reflexivity|].
  split; [exact Hmain|]. split; [exact demoResolved_run|]. split; [exact Hfrom|].
  exists st3, before, after. split; [exact Hend|]. by rewrite Htrace, (Hcb Hun).
Defined.

(** On the root of [demoRegistry] after 'Request' was resolved: resolving
    'Option' leaves the handle of 'Cache' where it is. *)
Lemma cached_handles_stay_witness :
  finalState (getService 2 demoRoot.1 "Option" demoResolved)
  = Some (stateAfter (getService 2 demoRoot.1 "Option" demoResolved) demoResolved)
  /\ map_get "Cache"
       (readMap 0 (stateAfter (getService 2 demoRoot.1 "Option" demoResolved)
                     demoResolved))
     = Some (mkHandle (VObject 12) 7).
Proof.
  assert (Hrun : finalState (getService 2 demoRoot.1 "Option" demoResolved)
                 = Some (stateAfter (getService 2 demoRoot.1 "Option" demoResolved)
                           demoResolved)) by (vm_compute; reflexivity).
  split; [exact Hrun|].
  apply (proj1 (cached_handles_stay 2 demoRoot.1 "Option" demoResolved _ Hrun)).
  vm_compute. reflexivity.
Defined.

(** On the registry of the unit test with a missing service, four
    entries. *)
Lemma validateRegistry_terminates_witness :
  length missingRegistry < 5
  /\ exists errors,
      validateRegistry 5 missingRegistry = Some errors
      /\ validateRegistry 9 missingRegistry = Some errors.
Proof.
  assert (Hfuel : length missingRegistry < 5) by (simpl; lia).
  split; [exact Hfuel|].
  destruct (validateRegistry_terminates missingRegistry 5 Hfuel)
    as (errors & Hrun & Hall).
  exists errors. split; [exact Hrun|]. apply Hall. simpl. lia.
Defined.

(** On [twiceRegistry], in the pass rooted at 'R': after 'A' was
    descended into, 'B', which holds the same function, is flagged. *)
Lemma revisit_reported_as_circular_witness :
  map_get "A" twiceRegistry = Some twiceA
  /\ set_has "A" (visitedServices (mkPass [] [] 0)) = false
  /\ (ordinal (scope twiceA) <= ordinal SingleInstance)%Z
  /\ mockRegistry 1 "R" SingleInstance twiceRegistry "A" (mkPass [] [] 0)
     = Returns VUndefined (mkPass [] ["A"; "B"] 1)
  /\ mockRegistry 1 "R" SingleInstance twiceRegistry "B" (mkPass [] ["A"; "B"] 1)
     = Returns VUndefined
         (mkPass ["Root Service with key R has a circular dependency with B."]
            ["A"; "B"] 1).
Proof.
  assert (Hord : (ordinal (scope twiceA) <= ordinal SingleInstance)%Z)
    by (simpl; lia).
  assert (Hrun : mockRegistry 1 "R" SingleInstance twiceRegistry "A" (mkPass [] [] 0)
                 = Returns VUndefined (mkPass [] ["A"; "B"] 1)) by reflexivity.
  destruct (revisit_reported_as_circular 1 "R" SingleInstance twiceRegistry "A"
              twiceA (mkPass [] [] 0) VUndefined (mkPass [] ["A"; "B"] 1)
              eq_refl eq_refl Hord Hrun) as [_ Hagain].
  split; [reflexivity|]. split; [reflexivity|]. split; [exact Hord|].
  split; [exact Hrun|].
  apply (Hagain "B" (mkPass [] ["A"; "B"] 1) 0).
  - simpl. auto.
  - apply passGrows_refl.
Defined.

(** On the registry of the unit test with a missing service. *)
Lemma validateRegistry_diagnostics_witness :
  validateRegistry 5 missingRegistry
  = Some
      ["Root Service with key SomeService depends on a service keyed UnregisteredService which does not exist.";
       "Root Service with key AnotherService depends on a service keyed UnregisteredService which does not exist.";
       "Root Service with key YetAnotherService depends on a service keyed UnregisteredService which does not exist.";
       "Root Service with key CommonService depends on a service keyed UnregisteredService which does not exist."]
  /\ exists key value,
      In (key, value) missingRegistry
      /\ diagnosticOf key (scope value) missingRegistry
           "Root Service with key AnotherService depends on a service keyed UnregisteredService which does not exist.".
Proof.
  assert (Hrun : validateRegistry 5 missingRegistry
                 = Some
                     ["Root Service with key SomeService depends on a service keyed UnregisteredService which does not exist.";
                      "Root Service with key AnotherService depends on a service keyed UnregisteredService which does not exist.";
                      "Root Service with key YetAnotherService depends on a service keyed UnregisteredService which does not exist.";
                      "Root Service with key CommonService depends on a service keyed UnregisteredService which does not exist."])
    by reflexivity.
  split; [exact Hrun|].
  apply (validateRegistry_diagnostics 5 missingRegistry _ Hrun). simpl. auto.
Defined.

(** On the same registry: 'CommonService' asks for 'UnregisteredService'. *)
Lemma missing_dependency_reported_witness :
  validateRegistry 5 missingRegistry
  = Some
      ["Root Service with key SomeService depends on a service keyed UnregisteredService which does not exist.";
       "Root Service with key AnotherService depends on a service keyed UnregisteredService which does not exist.";
       "Root Service with key YetAnotherService depends on a service keyed UnregisteredService which does not exist.";
       "Root Service with key CommonService depends on a service keyed UnregisteredService which does not exist."]
  /\ In ("CommonService", commonService) missingRegistry
  /\ In "UnregisteredService" ["UnregisteredService"]
  /\ map_get "UnregisteredService" missingRegistry = None
  /\ In (missingMessage "CommonService" "UnregisteredService")
       ["Root Service with key SomeService depends on a service keyed UnregisteredService which does not exist.";
        "Root Service with key AnotherService depends on a service keyed UnregisteredService which does not exist.";
        "Root Service with key YetAnotherService depends on a service keyed UnregisteredService which does not exist.";
        "Root Service with key CommonService depends on a service keyed UnregisteredService which does not exist."].
Proof.
  assert (Hrun : validateRegistry 5 missingRegistry
                 = Some
                     ["Root Service with key SomeService depends on a service keyed UnregisteredService which does not exist.";
                      "Root Service with key AnotherService depends on a service keyed UnregisteredService which does not exist.";
                      "Root Service with key YetAnotherService depends on a service keyed UnregisteredService which does not exist.";
                      "Root Service with key CommonService depends on a service keyed UnregisteredService which does not exist."])
    by reflexivity.
  assert (Hentry : In ("CommonService", commonService) missingRegistry)
    by (simpl; auto).
  assert (Hdep : In "UnregisteredService" ["UnregisteredService"]) by (simpl; auto).
  split; [exact Hrun|]. split; [exact Hentry|]. split; [exact Hdep|].
  split; [reflexivity|].
  exact (missing_dependency_reported 5 missingRegistry "CommonService" commonService
           ["UnregisteredService"] (fun services => Construct services Return)
           "UnregisteredService" _ Hrun Hentry eq_refl Hdep eq_refl).
Defined.
